(** * crashdetect: call tracking, error classification and AMX backtraces

    A shallow embedding of [src/crashdetect.cpp]: the intercepted call
    wrappers ([DoAmxCallback], [DoAmxExec], [DoAmxRelease]), the run-time
    error classifier ([HandleExecError], [DieOrContinue]) and the
    cross-boundary backtrace printer ([PrintAmxBacktrace]).

    The class keeps its state in static members ([errorCaught_],
    [npCalls_], [instances_], [serverCfg]); here they are the fields of a
    [World] that every member function threads explicitly, together with
    the memory of the abstract machines and the lines written to the log.
    A member function is a computation [M A]: it either returns to its
    caller or stops the process ([std::exit], a failed [assert], a null
    dereference). *)

From Stdlib Require Import Ascii String.
From Equations Require Import Equations.
From stdpp Require Import base numbers strings list gmap.

Local Open Scope string_scope.
Local Open Scope Z_scope.
Local Open Scope list_scope.

(** ** Data model *)

(** [cell] is the 32-bit signed machine word of the abstract machine; the
    code only compares and prints cells, so no wrap-around arises.  An
    [AMX*] and every other pointer is its address. *)
Definition cell := Z.
Definition ptr := Z.

(** [#define AMX_EXEC_GDK (-10)] *)
Definition AMX_EXEC_GDK : Z := -10.

(** [EXIT_FAILURE] of <cstdlib>. *)
Definition EXIT_FAILURE : Z := 1.

(** The registers of [struct tagAMX] that crashdetect.cpp reads. *)
Record AMX := {
  base : ptr;
  frm : cell;
  cip : cell;
  stk : cell;
  hea : cell;
  hlw : cell;
  stp : cell;
  pri : cell
}.

(** The offsets of [AMX_HEADER] that crashdetect.cpp reads. *)
Record AMX_HEADER := {
  cod : Z;
  natives : Z
}.

(** [AMXDebugInfo]: of the symbol table only [IsLoaded()] is consulted
    here. *)
Record AMXDebugInfo := {
  IsLoaded : bool
}.

(** [AMXStackFrame(amx, frmAddr, retAddr, funAddr, debugInfo)]. *)
Record AMXStackFrame := {
  frame_amx : ptr;
  GetFrameAddr : Z;
  GetRetAddr : Z;
  GetFunAddr : Z;
  frame_debugInfo : AMXDebugInfo
}.

(** [StackFrame] of the native unwinder. *)
Record StackFrame := {
  native_RetAddr : ptr
}.

(** Modelled from the spec: [NPCall] (npcall.h is not part of the
    sources at hand).  A Call Record has a direction, the owning instance,
    the index of the callee and the instance's frame and instruction
    pointers captured when the call was made (§3, Call Record); the
    code reads the captured pointers of entrypoint records only. *)
Module NPCall.
Inductive Type_ := NATIVE | PUBLIC.

Record t := {
  type_ : Type_;
  amx_ : ptr;
  index_ : cell;
  frm_ : cell;
  cip_ : cell
}.

Definition Native (a : ptr) (regs : AMX) (i : cell) : t :=
  {| type_ := NATIVE; amx_ := a; index_ := i;
     frm_ := frm regs; cip_ := cip regs |}.
Definition Public (a : ptr) (regs : AMX) (i : cell) : t :=
  {| type_ := PUBLIC; amx_ := a; index_ := i;
     frm_ := frm regs; cip_ := cip regs |}.

Definition IsNative (c : t) : bool :=
  match type_ c with NATIVE => true | PUBLIC => false end.
Definition IsPublic (c : t) : bool :=
  match type_ c with PUBLIC => true | NATIVE => false end.

Definition amx (c : t) : ptr := amx_ c.
Definition index (c : t) : cell := index_ c.
Definition frm (c : t) : cell := frm_ c.
Definition cip (c : t) : cell := cip_ c.
End NPCall.

(** The per-instance state of [class crashdetect].  [prevCallback_] is a
    function pointer into the host; what it does when called is given
    where it is called ([DoAmxCallback]). *)
Record crashdetect := {
  amx_ : ptr;
  amxhdr_ : ptr;
  amxName_ : string;
  debugInfo_ : AMXDebugInfo
}.

(** The memory the abstract machines live in, as the code reads it
    through its typed pointers. *)
Record Machine := {
  amxs : ptr -> AMX;
  headers : ptr -> AMX_HEADER;
  cells : ptr -> cell;
  cstrings : ptr -> string
}.

(** What reaches the outside: a line handed to [::vlogprintf] (format and
    arguments) and a command handed to [std::system]. *)
Inductive Arg :=
| ArgInt (n : Z)
| ArgStr (s : string)
| ArgPtr (p : ptr).

Inductive Event :=
| Vlogprintf (format : string) (args : list Arg)
| System (command : string).

(** [ConfigReader]: the key/value lines of server.cfg. *)
Abbreviation ConfigReader := (gmap string string).

Record World := {
  errorCaught_ : bool;
  npCalls_ : list NPCall.t;
  instances_ : gmap ptr crashdetect;
  serverCfg : ConfigReader;
  machine : Machine;
  output : list Event
}.

Definition set_errorCaught (b : bool) (w : World) : World :=
  {| errorCaught_ := b; npCalls_ := npCalls_ w; instances_ := instances_ w;
     serverCfg := serverCfg w; machine := machine w; output := output w |}.

Definition set_npCalls (s : list NPCall.t) (w : World) : World :=
  {| errorCaught_ := errorCaught_ w; npCalls_ := s; instances_ := instances_ w;
     serverCfg := serverCfg w; machine := machine w; output := output w |}.

Definition set_machine (m : Machine) (w : World) : World :=
  {| errorCaught_ := errorCaught_ w; npCalls_ := npCalls_ w;
     instances_ := instances_ w; serverCfg := serverCfg w; machine := m;
     output := output w |}.

Definition emit (e : Event) (w : World) : World :=
  {| errorCaught_ := errorCaught_ w; npCalls_ := npCalls_ w;
     instances_ := instances_ w; serverCfg := serverCfg w;
     machine := machine w; output := output w ++ [e] |}.

(** ** Computations *)

Inductive Stop :=
| Exit (status : Z)
| AssertFailed
| NullDeref.

Inductive Outcome (A : Type) :=
| Returned (a : A) (w : World)
| Stopped (how : Stop) (w : World).
Arguments Returned {A} a w.
Arguments Stopped {A} how w.

Definition M (A : Type) : Type := World -> Outcome A.

Definition ret {A} (a : A) : M A := fun w => Returned a w.

Definition bind {A B} (c : M A) (k : A -> M B) : M B :=
  fun w =>
    match c w with
    | Returned a w' => k a w'
    | Stopped how w' => Stopped how w'
    end.

Declare Scope M_scope.
Delimit Scope M_scope with M.
Bind Scope M_scope with M.
Notation "x ← y ; z" := (bind y (fun x => z))
  (at level 20, y at level 100, z at level 200, only parsing) : M_scope.
Notation "x ;; z" := (bind x (fun _ => z))
  (at level 100, z at level 200, only parsing, right associativity) : M_scope.

Definition get {A} (f : World -> A) : M A := fun w => Returned (f w) w.
Definition modify (f : World -> World) : M unit := fun w => Returned tt (f w).
Definition stop {A} (how : Stop) : M A := fun w => Stopped how w.
Definition when (b : bool) (c : M unit) : M unit := if b then c else ret tt.

(** The world an outcome leaves behind, and whether it is a return. *)
Definition world_of {A} (o : Outcome A) : World :=
  match o with
  | Returned _ w => w
  | Stopped _ w => w
  end.

Definition returns {A} (o : Outcome A) : bool :=
  match o with
  | Returned _ _ => true
  | Stopped _ _ => false
  end.

(** ** What the code is compiled and linked against

    Headers and libraries that crashdetect.cpp uses but that are not among
    the sources at hand are parameters of the development: the [AMX_ERR_*]
    enumerators and [sizeof(cell)] of amx/amx.h, whether [assert] is
    compiled in, and the helper functions of amxutils, amxstacktrace,
    fileutils, os, stacktrace and configreader.  The helpers that read the
    memory of an abstract machine take the [Machine]. *)
Class Env := {
  AMX_ERR_NONE : Z;
  AMX_ERR_STACKERR : Z;
  AMX_ERR_BOUNDS : Z;
  AMX_ERR_INVINSTR : Z;
  AMX_ERR_STACKLOW : Z;
  AMX_ERR_HEAPLOW : Z;
  AMX_ERR_CALLBACK : Z;
  AMX_ERR_NOTFOUND : Z;
  AMX_ERR_INDEX : Z;
  AMX_ERR_INIT : Z;
  sizeof_cell : Z;
  NDEBUG : bool;
  aux_StrError : Z -> string;
  (* [natives[i]] for the table at a pointer: [address] and [nameofs] *)
  funcstub : Machine -> ptr -> Z -> Z * Z;
  amx_NumNatives : Machine -> ptr -> Z;
  amx_Release : ptr -> cell -> Machine -> Machine * Z;
  GetNativeAddr : Machine -> ptr -> cell -> ptr;
  (* [None] is the null pointer *)
  GetNativeName : Machine -> ptr -> cell -> option string;
  GetPublicAddr : Machine -> ptr -> cell -> Z;
  PushStack : ptr -> cell -> Machine -> Machine;
  PopStack : ptr -> Machine -> cell * Machine;
  (* [AMXStackTrace trace(amx, stk, debugInfo)]: the frame [GetFrame()]
     returns first, then the frames it returns after each [Next()] that
     answers true; a walk is finite (§4.5) *)
  AMXStackTrace : Machine -> ptr -> cell -> AMXDebugInfo ->
                  AMXStackFrame * list AMXStackFrame;
  (* [operator bool] of a frame *)
  AMXStackFrame_bool : AMXStackFrame -> bool;
  AMXStackFrame_AsString : Machine -> AMXStackFrame -> string;
  (* [StackTrace(context).GetFrames()]; [None] is the null context *)
  StackTrace_GetFrames : option ptr -> list StackFrame;
  StackFrame_AsString : StackFrame -> string;
  GetModulePathFromAddr : ptr -> string;
  GetFileName : string -> string;
  GetOption_bool : ConfigReader -> string -> bool -> bool;
  GetOption_string : ConfigReader -> string -> string -> string
}.

Section CrashDetect.
Context `{env : Env}.

Local Open Scope M_scope.

Definition empty (s : string) : bool :=
  match s with EmptyString => true | String _ _ => false end.

Definition dquote : string := String "034"%char EmptyString.

(** [crashdetect::logprintf] *)
Definition logprintf (format : string) (args : list Arg) : M unit :=
  let prefixed_format := "[debug] " +:+ format in
  modify (emit (Vlogprintf prefixed_format args)).

(** [std::system(command.c_str())] *)
Definition system (command : string) : M unit :=
  modify (emit (System command)).

(** [crashdetect::DieOrContinue] *)
Definition DieOrContinue : M unit :=
  die ← get (fun w => GetOption_bool (serverCfg w) "die_on_error" false);
  if die : bool then
    logprintf "Aborting..." [];;
    stop (Exit EXIT_FAILURE)
  else ret tt.

(** [for (i = first; i != last; ++i) body(i)] over a materialised range. *)
Fixpoint for_each {A} (l : list A) (body : A -> M unit) : M unit :=
  match l with
  | [] => ret tt
  | x :: l' => body x;; for_each l' body
  end.

(** [crashdetect::PrintSystemBacktrace]: [level] counts the lines. *)
Fixpoint print_native_frames (frames : list StackFrame) (level : Z) : M unit :=
  match frames with
  | [] => ret tt
  | frame :: frames' =>
    let module := GetModulePathFromAddr (native_RetAddr frame) in
    let from := if empty module then EmptyString else " from " +:+ module in
    logprintf "#%d %s%s"
      [ArgInt level; ArgStr (StackFrame_AsString frame); ArgStr from];;
    print_native_frames frames' (level + 1)
  end.

Definition PrintSystemBacktrace (context : option ptr) : M unit :=
  logprintf "System backtrace:" [];;
  let level := 0 in
  let frames := StackTrace_GetFrames context in
  print_native_frames frames level.

(** [crashdetect::HandleReleaseError] *)
Definition HandleReleaseError (this : crashdetect) (address : cell)
    (releaser : ptr) : M unit :=
  let plugin := GetFileName (GetModulePathFromAddr releaser) in
  let plugin := if empty plugin then "<unknown>" else plugin in
  logprintf "Bad heap release detected:" [];;
  logprintf " %s [%08x] is releasing memory at %08x which is out of heap"
    [ArgStr plugin; ArgPtr releaser; ArgInt address];;
  PrintSystemBacktrace None.

(** [crashdetect::DoAmxRelease] *)
Definition DoAmxRelease (this : crashdetect) (amx_addr : cell)
    (releaser : ptr) : M Z :=
  a ← get (fun w => amxs (machine w) (amx_ this));
  when ((amx_addr <? hlw a) || (amx_addr >=? stk a))
    (HandleReleaseError this amx_addr releaser);;
  fun w =>
    let '(m, retcode) := amx_Release (amx_ this) amx_addr (machine w) in
    Returned retcode (set_machine m w).

(** *** [crashdetect::PrintAmxBacktrace] *)

(** The [do ... while (trace.Next())] loop that fills [frames]: it stops at
    the first frame that converts to false, or when [Next()] answers
    false. *)
Fixpoint collect_frames (frame : AMXStackFrame) (rest : list AMXStackFrame)
    : list AMXStackFrame :=
  if AMXStackFrame_bool frame then
    frame :: match rest with
             | [] => []
             | next :: rest' => collect_frames next rest'
             end
  else [].

(** [frames.back() = bottom'] for a list that is not empty. *)
Fixpoint set_back (frames : list AMXStackFrame)
    (f : AMXStackFrame -> AMXStackFrame) : list AMXStackFrame :=
  match frames with
  | [] => []
  | [bottom] => [f bottom]
  | frame :: frames' => frame :: set_back frames' f
  end.

(** The frames of one entrypoint Call Record, as they are printed: the
    walk's frames, or one frame at the entrypoint's address when the walk
    found none; without debug information the outermost frame is given the
    entrypoint's address. *)
Definition public_frames (m : Machine) (call : NPCall.t) (frm : cell)
    (debugInfo : AMXDebugInfo) (frames : list AMXStackFrame)
    : list AMXStackFrame :=
  match frames with
  | [] =>
    let epAddr := GetPublicAddr m (NPCall.amx call) (NPCall.index call) in
    [ {| frame_amx := NPCall.amx call; GetFrameAddr := frm; GetRetAddr := 0;
         GetFunAddr := epAddr; frame_debugInfo := debugInfo |} ]
  | _ :: _ =>
    if negb (IsLoaded debugInfo) then
      set_back frames (fun bottom =>
        {| frame_amx := NPCall.amx call;
           GetFrameAddr := GetFrameAddr bottom;
           GetRetAddr := GetRetAddr bottom;
           GetFunAddr := GetPublicAddr m (NPCall.amx call) (NPCall.index call);
           frame_debugInfo := debugInfo |})
    else frames
  end.

(** The loop that prints [frames]; it returns the next [level]. *)
Fixpoint print_frames (amxName : string) (debugInfo : AMXDebugInfo)
    (frames : list AMXStackFrame) (level : Z) : M Z :=
  match frames with
  | [] => ret level
  | frame :: frames' =>
    let from :=
      if empty amxName || IsLoaded debugInfo then EmptyString
      else " from " +:+ amxName in
    text ← get (fun w => AMXStackFrame_AsString (machine w) frame);
    logprintf "#%d %s%s" [ArgInt level; ArgStr text; ArgStr from];;
    print_frames amxName debugInfo frames' (level + 1)
  end.

(** [instances_[amx]->...]: [operator[]] yields a null pointer for a key
    that is absent, and the member access dereferences it. *)
Definition instance_at (amx : ptr) : M crashdetect :=
  found ← get (fun w => instances_ w !! amx);
  match found with
  | Some c => ret c
  | None => stop NullDeref
  end.

Definition on_machine {A} (f : Machine -> A * Machine) : M A :=
  fun w => let '(a, m) := f (machine w) in Returned a (set_machine m w).

(** One turn of the [while] loop for a native Call Record. *)
Definition trace_native (call : NPCall.t) (level : Z) : M Z :=
  address ← get (fun w =>
    GetNativeAddr (machine w) (NPCall.amx call) (NPCall.index call));
  if negb (address =? 0) then
    let module := GetFileName (GetModulePathFromAddr address) in
    let from := if empty module then EmptyString else " from " +:+ module in
    name ← get (fun w =>
      GetNativeName (machine w) (NPCall.amx call) (NPCall.index call));
    match name with
    | Some name =>
      logprintf "#%d native %s () [%08x]%s"
        [ArgInt level; ArgStr name; ArgPtr address; ArgStr from];;
      ret (level + 1)
    | None => ret level
    end
  else ret level.

(** One turn of the [while] loop for an entrypoint Call Record. *)
Definition trace_public (call : NPCall.t) (frm cip : cell) (level : Z)
    : M Z :=
  let amx := NPCall.amx call in
  instance ← instance_at amx;
  let debugInfo := debugInfo_ instance in
  on_machine (fun m => (tt, PushStack amx cip m));;
  on_machine (fun m => (tt, PushStack amx frm m));;
  frames ← get (fun w =>
    let '(frame, rest) :=
      AMXStackTrace (machine w) amx (stk (amxs (machine w) amx)) debugInfo in
    collect_frames frame rest);
  frm ← on_machine (PopStack amx);
  cip ← on_machine (PopStack amx);
  frames ← get (fun w => public_frames (machine w) call frm debugInfo frames);
  instance ← instance_at amx;
  print_frames (amxName_ instance) debugInfo frames level.

(** The [while (!npCalls.empty() && cip != 0)] loop over the copy of the
    call stack, innermost record first. *)
Fixpoint trace_calls (topAmx : ptr) (npCalls : list NPCall.t)
    (frm cip : cell) (level : Z) : M unit :=
  match npCalls with
  | [] => ret tt
  | call :: npCalls' =>
    if cip =? 0 then ret tt
    else if negb (NPCall.amx call =? topAmx) then
      (* assert(level != 0); break; *)
      if negb NDEBUG && (level =? 0) then stop AssertFailed else ret tt
    else if NPCall.IsNative call then
      level ← trace_native call level;
      trace_calls topAmx npCalls' frm cip level
    else if NPCall.IsPublic call then
      level ← trace_public call frm cip level;
      trace_calls topAmx npCalls' (NPCall.frm call) (NPCall.cip call) level
    else trace_calls topAmx npCalls' frm cip level
  end.

Definition PrintAmxBacktrace : M unit :=
  calls ← get npCalls_;
  match calls with
  | [] => ret tt
  | top :: _ =>
    let topAmx := NPCall.amx top in
    regs ← get (fun w => amxs (machine w) topAmx);
    let frm := frm regs in
    let cip := cip regs in
    let level := 0 in
    if cip =? 0 then ret tt
    else
      logprintf "AMX backtrace:" [];;
      npCalls ← get npCalls_;
      trace_calls topAmx npCalls frm cip level
  end.

(** *** [crashdetect::HandleExecError] *)

(** The [switch (error)] with the detail lines of each kind of error. *)
Definition describe_error (this : crashdetect) (error : Z) : M unit :=
  a ← get (fun w => amxs (machine w) (amx_ this));
  hdr ← get (fun w => headers (machine w) (amxhdr_ this));
  if error =? AMX_ERR_BOUNDS then
    bound ← get (fun w =>
      cells (machine w) (cip a + base a + cod hdr + sizeof_cell));
    let index := pri a in
    if index <? 0 then
      logprintf " Accessing element at negative index %d" [ArgInt index]
    else
      logprintf " Accessing element at index %d past array upper bound %d"
        [ArgInt index; ArgInt bound]
  else if error =? AMX_ERR_NOTFOUND then
    let natives := base a + natives hdr in
    numNatives ← get (fun w => amx_NumNatives (machine w) (amx_ this));
    for_each (seqZ 0 numNatives) (fun i =>
      stub ← get (fun w => funcstub (machine w) natives i);
      let '(address, nameofs) := stub in
      if address =? 0 then
        name ← get (fun w => cstrings (machine w) (nameofs + base a));
        logprintf " %s" [ArgStr name]
      else ret tt)
  else if error =? AMX_ERR_STACKERR then
    logprintf " Stack pointer (STK) is 0x%X, heap pointer (HEA) is 0x%X"
      [ArgInt (stk a); ArgInt (hea a)]
  else if error =? AMX_ERR_STACKLOW then
    logprintf " Stack pointer (STK) is 0x%X, stack top (STP) is 0x%X"
      [ArgInt (stk a); ArgInt (stp a)]
  else if error =? AMX_ERR_HEAPLOW then
    logprintf " Heap pointer (HEA) is 0x%X, heap bottom (HLW) is 0x%X"
      [ArgInt (hea a); ArgInt (hlw a)]
  else if error =? AMX_ERR_INVINSTR then
    opcode ← get (fun w => cells (machine w) (cip a + base a + cod hdr));
    logprintf " Unknown opcode 0x%x at address 0x%08X"
      [ArgInt opcode; ArgInt (cip a)]
  else ret tt.

Definition HandleExecError (this : crashdetect) (index : Z) (error : Z)
    : M unit :=
  modify (set_errorCaught true);;
  if (error =? AMX_ERR_INDEX) && (index =? AMX_EXEC_GDK) then ret tt
  else
    logprintf ("Run time error %d: " +:+ dquote +:+ "%s" +:+ dquote)
      [ArgInt error; ArgStr (aux_StrError error)];;
    describe_error this error;;
    when (negb (error =? AMX_ERR_NOTFOUND) &&
          negb (error =? AMX_ERR_INDEX) &&
          negb (error =? AMX_ERR_CALLBACK) &&
          negb (error =? AMX_ERR_INIT))
      PrintAmxBacktrace;;
    command ← get (fun w =>
      GetOption_string (serverCfg w) "run_on_error" EmptyString);
    when (negb (empty command)) (system command);;
    DieOrContinue.

(** Modelled from the spec: [amx_Error] (amxutils.h is not part of the
    sources at hand) hands the error to the Error Classifier of the
    instance that owns the machine (§4.3: forward it to the Error
    Classifier). *)
Definition amx_Error (this : crashdetect) (index : Z) (error : Z) : M unit :=
  HandleExecError this index error.

(** *** The intercepted call wrappers

    [prevCallback_] and [::amx_Exec] are calls into the host; the wrapper
    takes what that call does as a computation. *)

Definition push (call : NPCall.t) : M unit :=
  modify (fun w => set_npCalls (call :: npCalls_ w) w).

Definition pop : M unit :=
  modify (fun w => set_npCalls (tail (npCalls_ w)) w).

(** [crashdetect::DoAmxCallback] *)
Definition DoAmxCallback (this : crashdetect) (prevCallback_ : M Z)
    (index : cell) : M Z :=
  call ← get (fun w =>
    NPCall.Native (amx_ this) (amxs (machine w) (amx_ this)) index);
  push call;;
  retcode ← prevCallback_;
  pop;;
  ret retcode.

(** [crashdetect::DoAmxExec] *)
Definition DoAmxExec (this : crashdetect) (amx_Exec : M Z) (index : Z)
    : M Z :=
  call ← get (fun w =>
    NPCall.Public (amx_ this) (amxs (machine w) (amx_ this)) index);
  push call;;
  retcode ← amx_Exec;
  errorCaught ← get errorCaught_;
  (if negb (retcode =? AMX_ERR_NONE) && negb errorCaught then
     amx_Error this index retcode
   else
     modify (set_errorCaught false));;
  pop;;
  ret retcode.

(** *** The host around the wrappers

    What runs behind [prevCallback_] and [::amx_Exec] is the server, its
    plugins and the abstract machine.  The static members of [crashdetect]
    are private, so that code can change the machines as it likes but
    reaches [npCalls_] and [errorCaught_] only through the hooks: a script
    calls a native ([DoAmxCallback]), a native calls an entrypoint
    ([DoAmxExec]), the machine reports an error ([amx_Error]), a plugin
    releases heap ([DoAmxRelease]).  [Host] is the tree of what one such
    call does before it returns its code. *)
Inductive Host :=
| HReturn (retcode : Z)
| HMachine (f : Machine -> Machine) (k : Machine -> Host)
| HCallback (this : crashdetect) (index : cell) (native : Host) (k : Z -> Host)
| HExec (this : crashdetect) (index : Z) (vm : Host) (k : Z -> Host)
| HError (this : crashdetect) (index : Z) (error : Z) (k : Host)
| HRelease (this : crashdetect) (amx_addr : cell) (releaser : ptr)
    (k : Z -> Host).

Fixpoint run (h : Host) : M Z :=
  match h with
  | HReturn retcode => ret retcode
  | HMachine f k =>
    m ← on_machine (fun m => (f m, f m));
    run (k m)
  | HCallback this index native k =>
    retcode ← DoAmxCallback this (run native) index;
    run (k retcode)
  | HExec this index vm k =>
    retcode ← DoAmxExec this (run vm) index;
    run (k retcode)
  | HError this index error k =>
    amx_Error this index error;;
    run k
  | HRelease this amx_addr releaser k =>
    retcode ← DoAmxRelease this amx_addr releaser;
    run (k retcode)
  end.

(** The statements of [HandleExecError] between the sentinel test and the
    call of [DieOrContinue]: the "Run time error" line, the detail lines,
    the backtrace and the configured command. *)
Definition report (this : crashdetect) (error : Z) : M unit :=
  (logprintf ("Run time error %d: " +:+ dquote +:+ "%s" +:+ dquote)
     [ArgInt error; ArgStr (aux_StrError error)];;
   describe_error this error;;
   when (negb (error =? AMX_ERR_NOTFOUND) &&
         negb (error =? AMX_ERR_INDEX) &&
         negb (error =? AMX_ERR_CALLBACK) &&
         negb (error =? AMX_ERR_INIT))
     PrintAmxBacktrace;;
   command ← get (fun w =>
     GetOption_string (serverCfg w) "run_on_error" EmptyString);
   when (negb (empty command)) (system command))%M.

End CrashDetect.

(** ** Instances, their construction, and system faults

    The rest of crashdetect.cpp: the registry ([GetInstance],
    [DestroyInstance]), the constructor with its search-path list, and
    the handlers of system exceptions and interrupts. *)

(** [std::string::find(char, pos)]: the first position at or after [pos]
    that holds the character; [None] is [npos]. *)
Fixpoint find (c : ascii) (pos : nat) (s : string) : option nat :=
  match s with
  | EmptyString => None
  | String a s' =>
    match pos with
    | O => if Ascii.eqb a c then Some O else S <$> find c O s'
    | S pos' => S <$> find c pos' s'
    end
  end.

(** The [while (begin < var.length())] loop of the constructor over the
    value of AMX_PATH.  [pathFinder] is the list of search paths of the
    [AMXPathFinder], in the order in which they were added;
    [AddSearchPath] adds at the end. *)
Equations? AddSearchPaths (sep : ascii) (var : string) (begin : nat)
    (pathFinder : list string) : list string
    by wf (String.length var - begin)%nat lt :=
  AddSearchPaths sep var begin pathFinder
    with lt_dec begin (String.length var) => {
    | left _ =>
      let end_ := match find sep begin var with
                  | Some e => e
                  | None => String.length var
                  end in
      let path := substring begin (end_ - begin) var in
      AddSearchPaths sep var (end_ + 1)
        (if empty path then pathFinder else pathFinder ++ [path]);
    | right _ => pathFinder }.
Proof.
  assert (Hge : forall s pos e, find sep pos s = Some e -> (pos <= e)%nat).
  { induction s as [| a s IH]; intros pos e; simpl; [discriminate |].
    destruct pos as [| pos].
    - intros _. lia.
    - destruct (find sep pos s) as [e' |] eqn:Hf; simpl; [| discriminate].
      intros [= <-]. apply IH in Hf. lia. }
  destruct (find sep begin var) as [e |] eqn:Hf.
  - apply Hge in Hf. lia.
  - lia.
Qed.

Arguments AddSearchPaths : simpl never.

(** What the constructor is linked against, beside [Env]: the process
    environment, fileutils' separator of path lists, [AMXPathFinder] and
    the loader of [AMXDebugInfo].  [store_sysreq_d] is the assignment to
    [amx->sysreq_d], a field the rest of the code does not read. *)
Class Loader := {
  kNativePathListSepChar : ascii;
  getenv : string -> option string;
  (* [pathFinder.FindAMX(amx)] for the search paths added so far *)
  FindAMX : list string -> Machine -> ptr -> string;
  AMXDebugInfo_IsPresent : Machine -> ptr -> bool;
  (* a default-constructed [AMXDebugInfo], and [Load(path)] on it *)
  AMXDebugInfo_new : AMXDebugInfo;
  AMXDebugInfo_Load : AMXDebugInfo -> string -> AMXDebugInfo;
  store_sysreq_d : ptr -> cell -> Machine -> Machine
}.

Definition set_instances (i : gmap ptr crashdetect) (w : World) : World :=
  {| errorCaught_ := errorCaught_ w; npCalls_ := npCalls_ w; instances_ := i;
     serverCfg := serverCfg w; machine := machine w; output := output w |}.

Section Lifecycle.
Context `{env : Env} `{loader : Loader}.

Local Open Scope M_scope.

(** The search paths the constructor hands to [FindAMX]. *)
Definition search_paths : list string :=
  let pathFinder := [] in
  let pathFinder := pathFinder ++ ["gamemodes"] in
  let pathFinder := pathFinder ++ ["filterscripts"] in
  match getenv "AMX_PATH" with
  | Some var => AddSearchPaths kNativePathListSepChar var 0 pathFinder
  | None => pathFinder
  end.

(** [crashdetect::crashdetect(AMX *amx)].  [amxPath_] is used here only;
    [prevCallback_] is the call into the host that [DoAmxCallback] takes
    as a computation. *)
Definition crashdetect_ctor (amx : ptr) : M crashdetect :=
  amxhdr ← get (fun w => base (amxs (machine w) amx));
  let pathFinder := search_paths in
  amxPath ← get (fun w => FindAMX pathFinder (machine w) amx);
  let amxName := GetFileName amxPath in
  present ← get (fun w => AMXDebugInfo_IsPresent (machine w) amx);
  let debugInfo :=
    if negb (empty amxPath) && present
    then AMXDebugInfo_Load AMXDebugInfo_new amxPath
    else AMXDebugInfo_new in
  on_machine (fun m => (tt, store_sysreq_d amx 0 m));;
  ret {| amx_ := amx; amxhdr_ := amxhdr; amxName_ := amxName;
         debugInfo_ := debugInfo |}.

(** [crashdetect::GetInstance] *)
Definition GetInstance (amx : ptr) : M crashdetect :=
  iterator ← get (fun w => instances_ w !! amx);
  match iterator with
  | None =>
    c ← crashdetect_ctor amx;
    modify (fun w => set_instances (<[amx := c]> (instances_ w)) w);;
    ret c
  | Some c => ret c
  end.

(** [crashdetect::DestroyInstance] *)
Definition DestroyInstance (amx : ptr) : M unit :=
  modify (fun w => set_instances (delete amx (instances_ w)) w).

(** [crashdetect::HandleException] *)
Definition HandleException (this : crashdetect) : M unit :=
  logprintf "Server crashed while executing %s" [ArgStr (amxName_ this)];;
  PrintAmxBacktrace.

(** [crashdetect::HandleInterrupt] *)
Definition HandleInterrupt (this : crashdetect) : M unit :=
  logprintf "Server received interrupt signal while executing %s"
    [ArgStr (amxName_ this)];;
  PrintAmxBacktrace.

(** [crashdetect::SystemException] *)
Definition SystemException (context : option ptr) : M unit :=
  calls ← get npCalls_;
  match calls with
  | top :: _ =>
    let amx := NPCall.amx top in
    this ← GetInstance amx;
    HandleException this
  | [] => logprintf "Server crashed due to an unknown error" []
  end;;
  PrintSystemBacktrace context.

(** [crashdetect::SystemInterrupt] *)
Definition SystemInterrupt (context : option ptr) : M unit :=
  calls ← get npCalls_;
  match calls with
  | top :: _ =>
    let amx := NPCall.amx top in
    this ← GetInstance amx;
    HandleInterrupt this
  | [] => logprintf "Server received interrupt signal" []
  end;;
  PrintSystemBacktrace context.

End Lifecycle.

(** ** How a computation moves the world

    [respects R c]: whatever the outcome of [c], the world it leaves is
    related by [R] to the world it started in.  For a preorder [R] this
    passes through sequencing, so a property of the single updates
    carries over to every member function built from them. *)
Definition respects (R : relation World) {A} (c : M A) : Prop :=
  forall w, R w (world_of (c w)).

Definition header : Event := Vlogprintf "[debug] AMX backtrace:" [].

(** The line that opens a bad-release report. *)
Definition bad_release : Event :=
  Vlogprintf "[debug] Bad heap release detected:" [].

(** *** Functions that always return

    [total c]: [c] returns to its caller from every world; nothing in it
    stops the process. *)
Definition total {A} (c : M A) : Prop :=
  forall w, exists a w', c w = Returned a w'.

(** A static member, or the machines, read the same before and after. *)
Definition same {B} (f : World -> B) : relation World :=
  fun w w' => f w' = f w.

(** The log is extended, never rewritten. *)
Definition grows : relation World :=
  fun w w' => exists evs, output w' = output w ++ evs.

(** The log is extended by lines none of which is the backtrace header. *)
Definition headerless : relation World :=
  fun w w' => exists evs, output w' = output w ++ evs /\ header ∉ evs.

(** ** How a computation can end

    [upholds R c]: from every world [w], if [c] returns in [w'] then
    [R w None w'], and if it stops the process in [w'] for reason [how]
    then [R w (Some how) w']. *)
Definition upholds (R : World -> option Stop -> World -> Prop) {A}
    (c : M A) : Prop :=
  forall w,
    match c w with
    | Returned _ w' => R w None w'
    | Stopped how w' => R w (Some how) w'
    end.

(** The options of server.cfg that the code reads. *)
Definition die_on_error `{env : Env} (w : World) : bool :=
  GetOption_bool (serverCfg w) "die_on_error" false.

Definition run_on_error `{env : Env} (w : World) : string :=
  GetOption_string (serverCfg w) "run_on_error" EmptyString.

(** A line that went through [crashdetect::logprintf] carries the marker;
    a command is the one configured. *)
Definition marked (command : string) (e : Event) : Prop :=
  match e with
  | Vlogprintf format _ => exists rest, format = "[debug] " +:+ rest
  | System c => c = command /\ c <> EmptyString
  end.

(** The level a frame line is numbered with: its first argument. *)
Definition line_level (e : Event) : option Z :=
  match e with
  | Vlogprintf _ (ArgInt level :: _) => Some level
  | _ => None
  end.

(** The fields of a string between occurrences of a separator, and the
    string without its first [n] characters. *)
Fixpoint fields (sep : ascii) (s : string) : list string :=
  match s with
  | EmptyString => [EmptyString]
  | String a s' =>
    if Ascii.eqb a sep then EmptyString :: fields sep s'
    else
      match fields sep s' with
      | [] => [String a EmptyString]
      | field :: others => String a field :: others
      end
  end.

Fixpoint skip (n : nat) (s : string) : string :=
  match n, s with
  | O, _ => s
  | S n', String _ s' => skip n' s'
  | S _, EmptyString => EmptyString
  end.

Definition nonempty (s : string) : bool := negb (empty s).

(** Frame lines numbered [level], [level + 1], ... without a gap. *)
Definition numbered (level : Z) (evs : list Event) : Prop :=
  line_level <$> evs = Some <$> seqZ level (Z.of_nat (length evs)).

(** Every instance is registered under its own machine. *)
Definition registry_keyed (w : World) : Prop :=
  forall amx c, instances_ w !! amx = Some c -> amx_ c = amx.

(** The lines of a system backtrace: the header and one numbered line for
    each frame of the native stack. *)
Definition system_backtrace_lines `{env : Env} (context : option ptr)
    : list Event :=
  Vlogprintf "[debug] System backtrace:" [] ::
  imap (fun i frame =>
    let module := GetModulePathFromAddr (native_RetAddr frame) in
    Vlogprintf "[debug] #%d %s%s"
      [ArgInt (Z.of_nat i); ArgStr (StackFrame_AsString frame);
       ArgStr (if empty module then EmptyString else " from " +:+ module)])
    (StackTrace_GetFrames context).

(** ** A concrete build and world

    The enumerators are those of the Pawn toolkit's amx.h; the helpers are
    small stand-ins, enough to run the model on concrete calls. *)
Definition frame0 (a : ptr) (dbg : AMXDebugInfo) : AMXStackFrame :=
  {| frame_amx := a; GetFrameAddr := 0; GetRetAddr := 0; GetFunAddr := 0;
     frame_debugInfo := dbg |}.

Definition pawn_env : Env := {|
  AMX_ERR_NONE := 0;
  AMX_ERR_STACKERR := 3;
  AMX_ERR_BOUNDS := 4;
  AMX_ERR_INVINSTR := 6;
  AMX_ERR_STACKLOW := 7;
  AMX_ERR_HEAPLOW := 8;
  AMX_ERR_CALLBACK := 9;
  AMX_ERR_NOTFOUND := 19;
  AMX_ERR_INDEX := 20;
  AMX_ERR_INIT := 22;
  sizeof_cell := 4;
  NDEBUG := false;
  aux_StrError := fun e =>
    if e =? 4 then "Array index out of bounds"
    else if e =? 20 then "Invalid index parameter (bad entry point)"
    else "(unknown)";
  funcstub := fun _ _ _ => (0, 0);
  amx_NumNatives := fun _ _ => 0;
  amx_Release := fun a addr m => (m, 0);
  GetNativeAddr := fun _ _ _ => 0;
  GetNativeName := fun _ _ _ => None;
  GetPublicAddr := fun _ _ i => 8 * (i + 1);
  PushStack := fun _ _ m => m;
  PopStack := fun _ m => (0, m);
  AMXStackTrace := fun _ a _ dbg => (frame0 a dbg, []);
  AMXStackFrame_bool := fun f => negb (GetFrameAddr f =? 0);
  AMXStackFrame_AsString := fun _ _ => "??";
  StackTrace_GetFrames := fun _ => [];
  StackFrame_AsString := fun _ => "??";
  GetModulePathFromAddr := fun _ => EmptyString;
  GetFileName := fun s => s;
  GetOption_bool := fun cfg name default =>
    match cfg !! name with
    | Some v => String.eqb v "1"
    | None => default
    end;
  GetOption_string := fun cfg name default =>
    match cfg !! name with
    | Some v => v
    | None => default
    end
|}.

(** One script at address 1: heap low-water mark 100, stack pointer 200,
    the machine stopped at code address 16. *)
Definition regs0 : AMX :=
  {| base := 4096; frm := 220; cip := 16; stk := 200; hea := 120;
     hlw := 100; stp := 256; pri := 50 |}.

Definition machine0 : Machine :=
  {| amxs := fun _ => regs0;
     headers := fun _ => {| cod := 56; natives := 40 |};
     cells := fun _ => 10;
     cstrings := fun _ => "Foo" |}.

Definition script0 : crashdetect :=
  {| amx_ := 1; amxhdr_ := 4096; amxName_ := "gm.amx";
     debugInfo_ := {| IsLoaded := false |} |}.

Definition world0 : World :=
  {| errorCaught_ := false; npCalls_ := [];
     instances_ := {[ 1 := script0 ]};
     serverCfg := ∅; machine := machine0; output := [] |}.

Definition world0_fatal : World :=
  {| errorCaught_ := false; npCalls_ := [];
     instances_ := {[ 1 := script0 ]};
     serverCfg := {[ "die_on_error" := "1" ]}; machine := machine0;
     output := [] |}.

(** The same world while the entrypoint with index 3 of the script is
    running. *)
Definition call0 : NPCall.t := NPCall.Public 1 regs0 3.

Definition world0_in_call : World := set_npCalls [call0] world0.

(** A host call in which the script calls native 2, the native calls
    entrypoint 5 of the script, the machine fails there with code 4, and
    the code travels back up. *)
Definition host0 : Host :=
  HCallback script0 2 (HExec script0 5 (HReturn 4) HReturn) HReturn.

(** The report of error 20 ([AMX_ERR_INDEX]) on this build: one line. *)
Definition run_time_error_20 : Event :=
  Vlogprintf ("[debug] Run time error %d: " +:+ dquote +:+ "%s" +:+ dquote)
    [ArgInt 20; ArgStr "Invalid index parameter (bad entry point)"].

(** The loader of the concrete build: a path list in AMX_PATH, the script
    found under the last search path that was added. *)
Definition pawn_loader : Loader := {|
  kNativePathListSepChar := ":"%char;
  getenv := fun name =>
    if String.eqb name "AMX_PATH" then Some "/srv/pawn::scripts:" else None;
  FindAMX := fun paths _ _ => default EmptyString (last paths) +:+ "/gm.amx";
  AMXDebugInfo_IsPresent := fun _ _ => false;
  AMXDebugInfo_new := {| IsLoaded := false |};
  AMXDebugInfo_Load := fun _ _ => {| IsLoaded := true |};
  store_sysreq_d := fun _ _ m => m
|}.

(** A second script at address 2, not registered yet, and a native of it
    in flight above the entrypoint call of the first script. *)
Definition world0_nested : World :=
  set_npCalls [NPCall.Native 2 regs0 7; call0] world0.

(** The concrete build with a table of three natives, of which the first
    and the last are not bound. *)
Definition natives_env : Env := {|
  AMX_ERR_NONE := @AMX_ERR_NONE pawn_env;
  AMX_ERR_STACKERR := @AMX_ERR_STACKERR pawn_env;
  AMX_ERR_BOUNDS := @AMX_ERR_BOUNDS pawn_env;
  AMX_ERR_INVINSTR := @AMX_ERR_INVINSTR pawn_env;
  AMX_ERR_STACKLOW := @AMX_ERR_STACKLOW pawn_env;
  AMX_ERR_HEAPLOW := @AMX_ERR_HEAPLOW pawn_env;
  AMX_ERR_CALLBACK := @AMX_ERR_CALLBACK pawn_env;
  AMX_ERR_NOTFOUND := @AMX_ERR_NOTFOUND pawn_env;
  AMX_ERR_INDEX := @AMX_ERR_INDEX pawn_env;
  AMX_ERR_INIT := @AMX_ERR_INIT pawn_env;
  sizeof_cell := @sizeof_cell pawn_env;
  NDEBUG := @NDEBUG pawn_env;
  aux_StrError := @aux_StrError pawn_env;
  funcstub := fun _ _ i => (if i =? 1 then 4660 else 0, 100 + 10 * i);
  amx_NumNatives := fun _ _ => 3;
  amx_Release := @amx_Release pawn_env;
  GetNativeAddr := @GetNativeAddr pawn_env;
  GetNativeName := @GetNativeName pawn_env;
  GetPublicAddr := @GetPublicAddr pawn_env;
  PushStack := @PushStack pawn_env;
  PopStack := @PopStack pawn_env;
  AMXStackTrace := @AMXStackTrace pawn_env;
  AMXStackFrame_bool := @AMXStackFrame_bool pawn_env;
  AMXStackFrame_AsString := @AMXStackFrame_AsString pawn_env;
  StackTrace_GetFrames := @StackTrace_GetFrames pawn_env;
  StackFrame_AsString := @StackFrame_AsString pawn_env;
  GetModulePathFromAddr := @GetModulePathFromAddr pawn_env;
  GetFileName := @GetFileName pawn_env;
  GetOption_bool := @GetOption_bool pawn_env;
  GetOption_string := @GetOption_string pawn_env
|}.

(** The names of the three natives, by the address they are read at. *)
Definition machine0_natives : Machine :=
  {| amxs := fun _ => regs0;
     headers := fun _ => {| cod := 56; natives := 40 |};
     cells := fun _ => 10;
     cstrings := fun p =>
       if p =? 4196 then "Foo" else if p =? 4206 then "Bar" else "Baz" |}.

Definition world0_natives : World := set_machine machine0_natives world0.

(** The concrete build with a data stack.  [PushStack] moves [stk] down
    by one cell and stores the value in the cell it then points at;
    [PopStack] reads that cell and moves [stk] up again. *)
Definition set_stk (v : cell) (r : AMX) : AMX :=
  {| base := base r; frm := frm r; cip := cip r; stk := v; hea := hea r;
     hlw := hlw r; stp := stp r; pri := pri r |}.

Definition push_cell (a : ptr) (v : cell) (m : Machine) : Machine :=
  let r := amxs m a in
  let stk' := stk r - 4 in
  {| amxs := fun p => if p =? a then set_stk stk' r else amxs m p;
     headers := headers m;
     cells := fun p => if p =? base r + stk' then v else cells m p;
     cstrings := cstrings m |}.

Definition pop_cell (a : ptr) (m : Machine) : cell * Machine :=
  let r := amxs m a in
  (cells m (base r + stk r),
   {| amxs := fun p => if p =? a then set_stk (stk r + 4) r else amxs m p;
      headers := headers m;
      cells := cells m;
      cstrings := cstrings m |}).

(** A walk of this build finds one frame, at the address it is started
    at, if that address lies in the stack (from [hlw] up to [stp]), and
    no frame otherwise.  The symbol table knows one function, at code
    address 32. *)
Definition walk_one (m : Machine) (a : ptr) (p : cell) (dbg : AMXDebugInfo)
    : AMXStackFrame * list AMXStackFrame :=
  let r := amxs m a in
  (if (hlw r <=? p) && (p <? stp r) then
     {| frame_amx := a; GetFrameAddr := p;
        GetRetAddr := cells m (base r + p + 4); GetFunAddr := 0;
        frame_debugInfo := dbg |}
   else frame0 a dbg,
   []).

Definition stack_env : Env := {|
  AMX_ERR_NONE := @AMX_ERR_NONE pawn_env;
  AMX_ERR_STACKERR := @AMX_ERR_STACKERR pawn_env;
  AMX_ERR_BOUNDS := @AMX_ERR_BOUNDS pawn_env;
  AMX_ERR_INVINSTR := @AMX_ERR_INVINSTR pawn_env;
  AMX_ERR_STACKLOW := @AMX_ERR_STACKLOW pawn_env;
  AMX_ERR_HEAPLOW := @AMX_ERR_HEAPLOW pawn_env;
  AMX_ERR_CALLBACK := @AMX_ERR_CALLBACK pawn_env;
  AMX_ERR_NOTFOUND := @AMX_ERR_NOTFOUND pawn_env;
  AMX_ERR_INDEX := @AMX_ERR_INDEX pawn_env;
  AMX_ERR_INIT := @AMX_ERR_INIT pawn_env;
  sizeof_cell := @sizeof_cell pawn_env;
  NDEBUG := @NDEBUG pawn_env;
  aux_StrError := @aux_StrError pawn_env;
  funcstub := @funcstub pawn_env;
  amx_NumNatives := @amx_NumNatives pawn_env;
  amx_Release := @amx_Release pawn_env;
  GetNativeAddr := @GetNativeAddr pawn_env;
  GetNativeName := @GetNativeName pawn_env;
  GetPublicAddr := @GetPublicAddr pawn_env;
  PushStack := push_cell;
  PopStack := pop_cell;
  AMXStackTrace := walk_one;
  AMXStackFrame_bool := @AMXStackFrame_bool pawn_env;
  AMXStackFrame_AsString := fun _ f =>
    if GetFunAddr f =? 32 then "public OnPlayerConnect ()" else "??";
  StackTrace_GetFrames := @StackTrace_GetFrames pawn_env;
  StackFrame_AsString := @StackFrame_AsString pawn_env;
  GetModulePathFromAddr := @GetModulePathFromAddr pawn_env;
  GetFileName := @GetFileName pawn_env;
  GetOption_bool := @GetOption_bool pawn_env;
  GetOption_string := @GetOption_string pawn_env
|}.

(** The script stopped with its stack run into the heap: two more cells
    on the stack take [stk] below [hlw], so a walk started there finds no
    frame. *)
Definition regs0_collided : AMX :=
  {| base := 4096; frm := 220; cip := 16; stk := 104; hea := 120;
     hlw := 100; stp := 256; pri := 50 |}.

Definition machine0_collided : Machine :=
  {| amxs := fun _ => regs0_collided;
     headers := fun _ => {| cod := 56; natives := 40 |};
     cells := fun _ => 10;
     cstrings := fun _ => "Foo" |}.

(** Entrypoint 3 of the script is running on that machine; it was called
    from native 2, which the script had called from entrypoint 5. *)
Definition world0_collided : World :=
  set_machine machine0_collided
    (set_npCalls
       [call0; NPCall.Native 1 regs0 2; NPCall.Public 1 regs0 5] world0).

(** * Proofs *)

(** ** Sequencing preserves a preorder on worlds *)

Section Respects.
Context `{env : Env}.
Context (R : relation World) `{!PreOrder R}.

Lemma respects_ret {A} (a : A) : respects R (ret a).
Proof. intros w. reflexivity. Qed.

Lemma respects_get {A} (f : World -> A) : respects R (get f).
Proof. intros w. reflexivity. Qed.

Lemma respects_stop {A} (how : Stop) : respects R (@stop A how).
Proof. intros w. reflexivity. Qed.

Lemma respects_modify (f : World -> World) :
  (forall w, R w (f w)) -> respects R (modify f).
Proof. intros Hf w. apply Hf. Qed.

Lemma respects_bind {A B} (c : M A) (k : A -> M B) :
  respects R c -> (forall a, respects R (k a)) -> respects R (bind c k).
Proof.
  intros Hc Hk w. unfold bind. specialize (Hc w).
  destruct (c w) as [a w1 | how w1]; simpl in *.
  - transitivity w1; [exact Hc | apply Hk].
  - exact Hc.
Qed.

Lemma respects_when (b : bool) (c : M unit) :
  respects R c -> respects R (when b c).
Proof. intros Hc. destruct b; simpl; [exact Hc | apply respects_ret]. Qed.

Lemma respects_for_each {A} (l : list A) (body : A -> M unit) :
  (forall x, respects R (body x)) -> respects R (for_each l body).
Proof.
  intros Hbody. induction l as [| x l IH]; simpl.
  - apply respects_ret.
  - apply respects_bind; [apply Hbody | intros _; exact IH].
Qed.

(** *** Functions that only write lines other than the backtrace header *)
Section Lines.
Hypothesis R_emit : forall e w, e <> header -> R w (emit e w).

Lemma respects_logprintf (format : string) (args : list Arg) :
  format <> "AMX backtrace:" -> respects R (logprintf format args).
Proof.
  intros Hne. apply respects_modify. intros w. apply R_emit.
  unfold header. cbn. intros Heq. apply Hne. injection Heq as Hfmt _.
  exact Hfmt.
Qed.

Lemma respects_system (command : string) : respects R (system command).
Proof.
  apply respects_modify. intros w. apply R_emit. unfold header. discriminate.
Qed.

Lemma respects_DieOrContinue : respects R DieOrContinue.
Proof.
  unfold DieOrContinue. apply respects_bind; [apply respects_get |].
  intros [|]; [| apply respects_ret].
  apply respects_bind; [| intros _; apply respects_stop].
  apply respects_logprintf. discriminate.
Qed.

Lemma respects_print_native_frames (frames : list StackFrame) (level : Z) :
  respects R (print_native_frames frames level).
Proof.
  revert level. induction frames as [| frame frames IH]; intros level; simpl.
  - apply respects_ret.
  - apply respects_bind; [| intros _; apply IH].
    apply respects_logprintf. discriminate.
Qed.

Lemma respects_PrintSystemBacktrace (context : option ptr) :
  respects R (PrintSystemBacktrace context).
Proof.
  unfold PrintSystemBacktrace. apply respects_bind.
  - apply respects_logprintf. discriminate.
  - intros _. apply respects_print_native_frames.
Qed.

Lemma respects_HandleReleaseError this address releaser :
  respects R (HandleReleaseError this address releaser).
Proof.
  unfold HandleReleaseError.
  apply respects_bind; [apply respects_logprintf; discriminate | intros _].
  apply respects_bind; [apply respects_logprintf; discriminate | intros _].
  apply respects_PrintSystemBacktrace.
Qed.

Lemma respects_describe_error this error :
  respects R (describe_error this error).
Proof.
  unfold describe_error.
  apply respects_bind; [apply respects_get | intros a].
  apply respects_bind; [apply respects_get | intros hdr].
  repeat match goal with
  | |- respects _ (if ?b then _ else _) => destruct b
  | |- respects _ (bind (get _) _) =>
    apply respects_bind; [apply respects_get | intros ?]
  | |- respects _ (logprintf _ _) => apply respects_logprintf; discriminate
  | |- respects _ (ret _) => apply respects_ret
  | |- respects _ (for_each _ _) => apply respects_for_each; intros ?
  | |- respects _ (let '(_, _) := ?p in _) => destruct p
  end.
Qed.

End Lines.
End Respects.

Ltac respects_step :=
  match goal with
  | |- respects ?R (bind _ _) => apply (respects_bind R); [| intros ?]
  | |- respects ?R (ret _) => apply (respects_ret R)
  | |- respects ?R (get _) => apply (respects_get R)
  | |- respects ?R (stop _) => apply (respects_stop R)
  | |- respects ?R (when _ _) => apply (respects_when R)
  | |- respects _ (if ?b then _ else _) => destruct b
  | |- respects _ (match ?x with _ => _ end) => destruct x
  end.

(** *** Functions that write any line and move the machines *)
Section RespectsBacktrace.
Context `{env : Env}.
Context (R : relation World) `{!PreOrder R}.
Hypothesis R_emit : forall e w, R w (emit e w).
Hypothesis R_machine : forall m w, R w (set_machine m w).

Lemma respects_logprintf_any (format : string) (args : list Arg) :
  respects R (logprintf format args).
Proof. apply (respects_modify R). intros w. apply R_emit. Qed.

Lemma respects_on_machine {A} (f : Machine -> A * Machine) :
  respects R (on_machine f).
Proof.
  intros w. unfold on_machine. destruct (f (machine w)) as [a m]. simpl.
  apply R_machine.
Qed.

Lemma respects_instance_at (amx : ptr) : respects R (instance_at amx).
Proof. unfold instance_at. repeat respects_step. Qed.

Lemma respects_print_frames amxName debugInfo frames level :
  respects R (print_frames amxName debugInfo frames level).
Proof.
  revert level. induction frames as [| frame frames IH]; intros level; simpl.
  - apply (respects_ret R).
  - repeat respects_step; [apply respects_logprintf_any | apply IH].
Qed.

Lemma respects_trace_native call level : respects R (trace_native call level).
Proof.
  unfold trace_native. repeat respects_step. apply respects_logprintf_any.
Qed.

Lemma respects_trace_public call frm cip level :
  respects R (trace_public call frm cip level).
Proof.
  unfold trace_public.
  repeat first
    [ apply respects_on_machine | apply respects_instance_at
    | apply respects_print_frames | respects_step ].
Qed.

Lemma respects_trace_calls topAmx npCalls frm cip level :
  respects R (trace_calls topAmx npCalls frm cip level).
Proof.
  revert frm cip level.
  induction npCalls as [| call npCalls IH]; intros frm cip level; simpl.
  - apply (respects_ret R).
  - repeat first
      [ apply IH | apply respects_trace_native | apply respects_trace_public
      | respects_step ].
Qed.

Lemma respects_PrintAmxBacktrace : respects R PrintAmxBacktrace.
Proof.
  unfold PrintAmxBacktrace.
  repeat first
    [ apply respects_trace_calls | apply respects_logprintf_any
    | respects_step ].
Qed.

Lemma respects_DoAmxRelease this amx_addr releaser :
  respects R (DoAmxRelease this amx_addr releaser).
Proof.
  unfold DoAmxRelease.
  apply (respects_bind R); [apply (respects_get R) | intros a].
  apply (respects_bind R).
  - apply (respects_when R), (respects_HandleReleaseError R).
    intros e w _. apply R_emit.
  - intros _ w. destruct (amx_Release _ _ _) as [m retcode]. simpl.
    apply R_machine.
Qed.

Hypothesis R_latch : forall b w, R w (set_errorCaught b w).

Lemma respects_HandleExecError this index error :
  respects R (HandleExecError this index error).
Proof.
  assert (Hlines : forall e w, e <> header -> R w (emit e w))
    by (intros e w _; apply R_emit).
  unfold HandleExecError.
  apply (respects_bind R); [apply (respects_modify R), R_latch | intros _].
  destruct (_ && _); [apply (respects_ret R) |].
  repeat first
    [ apply respects_logprintf_any | apply (respects_describe_error R Hlines)
    | apply respects_PrintAmxBacktrace | apply (respects_system R Hlines)
    | apply (respects_DieOrContinue R Hlines) | respects_step ].
Qed.

Hypothesis R_stack : forall s w, R w (set_npCalls s w).

(** The host moves the world only through the machines and the hooks. *)
Lemma respects_DoAmxCallback this prevCallback_ index :
  respects R prevCallback_ ->
  respects R (DoAmxCallback this prevCallback_ index).
Proof.
  intros Hprev. unfold DoAmxCallback, push, pop.
  repeat first
    [ exact Hprev | apply (respects_modify R); intros ?; apply R_stack
    | respects_step ].
Qed.

Lemma respects_DoAmxExec this amx_Exec index :
  respects R amx_Exec -> respects R (DoAmxExec this amx_Exec index).
Proof.
  intros Hexec. unfold DoAmxExec, push, pop, amx_Error.
  repeat first
    [ exact Hexec | apply respects_HandleExecError
    | apply (respects_modify R); intros ?;
      first [apply R_stack | apply R_latch]
    | respects_step ].
Qed.

Lemma respects_run (h : Host) : respects R (run h).
Proof.
  induction h as [retcode | f k IH | this index native IHn k IH
                 | this index vm IHv k IH | this index error k IH
                 | this amx_addr releaser k IH]; simpl.
  - apply (respects_ret R).
  - apply (respects_bind R); [apply respects_on_machine | intros m; apply IH].
  - apply (respects_bind R);
      [apply respects_DoAmxCallback, IHn | intros rc; apply IH].
  - apply (respects_bind R);
      [apply respects_DoAmxExec, IHv | intros rc; apply IH].
  - apply (respects_bind R);
      [apply respects_HandleExecError | intros _; apply IH].
  - apply (respects_bind R);
      [apply respects_DoAmxRelease | intros rc; apply IH].
Qed.

End RespectsBacktrace.

(** *** Functions that always return *)
Section Total.
Context `{env : Env}.

Lemma total_ret {A} (a : A) : total (ret a).
Proof. intros w. by exists a, w. Qed.

Lemma total_get {A} (f : World -> A) : total (get f).
Proof. intros w. by exists (f w), w. Qed.

Lemma total_modify (f : World -> World) : total (modify f).
Proof. intros w. by exists tt, (f w). Qed.

Lemma total_bind {A B} (c : M A) (k : A -> M B) :
  total c -> (forall a, total (k a)) -> total (bind c k).
Proof.
  intros Hc Hk w. unfold bind. destruct (Hc w) as (a & w1 & ->). apply Hk.
Qed.

Lemma total_when (b : bool) (c : M unit) : total c -> total (when b c).
Proof. intros Hc. destruct b; simpl; [exact Hc | apply total_ret]. Qed.

Lemma total_for_each {A} (l : list A) (body : A -> M unit) :
  (forall x, total (body x)) -> total (for_each l body).
Proof.
  intros Hbody. induction l as [| x l IH]; simpl.
  - apply total_ret.
  - apply total_bind; [apply Hbody | intros _; exact IH].
Qed.

Lemma total_logprintf format args : total (logprintf format args).
Proof. apply total_modify. Qed.

Lemma total_print_native_frames frames level :
  total (print_native_frames frames level).
Proof.
  revert level. induction frames as [| frame frames IH]; intros level; simpl.
  - apply total_ret.
  - apply total_bind; [apply total_logprintf | intros _; apply IH].
Qed.

Lemma total_HandleReleaseError this address releaser :
  total (HandleReleaseError this address releaser).
Proof.
  unfold HandleReleaseError, PrintSystemBacktrace.
  repeat (apply total_bind; [apply total_logprintf | intros _]).
  apply total_print_native_frames.
Qed.

Lemma total_describe_error this error : total (describe_error this error).
Proof.
  unfold describe_error.
  repeat match goal with
  | |- total (bind _ _) => apply total_bind; [| intros ?]
  | |- total (get _) => apply total_get
  | |- total (ret _) => apply total_ret
  | |- total (logprintf _ _) => apply total_logprintf
  | |- total (for_each _ _) => apply total_for_each; intros ?
  | |- total (if ?b then _ else _) => destruct b
  | |- total (let '(_, _) := ?p in _) => destruct p
  end.
Qed.

End Total.

(** *** The relations are preorders *)

Instance same_preorder {B} (f : World -> B) : PreOrder (same f).
Proof.
  split.
  - intros w. reflexivity.
  - intros w1 w2 w3 H12 H23. unfold same in *. congruence.
Qed.

Instance grows_preorder : PreOrder grows.
Proof.
  split.
  - intros w. exists []. by rewrite app_nil_r.
  - intros w1 w2 w3 [evs1 H12] [evs2 H23]. exists (evs1 ++ evs2).
    by rewrite H23, H12, app_assoc.
Qed.

Instance headerless_preorder : PreOrder headerless.
Proof.
  split.
  - intros w. exists []. split; [by rewrite app_nil_r | apply not_elem_of_nil].
  - intros w1 w2 w3 (evs1 & H12 & Hno1) (evs2 & H23 & Hno2).
    exists (evs1 ++ evs2). split.
    + by rewrite H23, H12, app_assoc.
    + rewrite elem_of_app. tauto.
Qed.

Lemma headerless_emit e w : e <> header -> headerless w (emit e w).
Proof.
  intros Hne. exists [e]. split; [reflexivity |].
  rewrite list_elem_of_singleton. congruence.
Qed.

Lemma grows_emit e w : grows w (emit e w).
Proof. by exists [e]. Qed.

Lemma grows_machine m w : grows w (set_machine m w).
Proof. exists []. simpl. by rewrite app_nil_r. Qed.

Lemma grows_latch b w : grows w (set_errorCaught b w).
Proof. exists []. simpl. by rewrite app_nil_r. Qed.

Lemma grows_stack s w : grows w (set_npCalls s w).
Proof. exists []. simpl. by rewrite app_nil_r. Qed.

Section Claims.
Context `{env : Env}.

(** *** The call stack across the wrappers *)

Lemma HandleExecError_same_npCalls this index error w :
  npCalls_ (world_of (HandleExecError this index error w)) = npCalls_ w.
Proof.
  by apply (respects_HandleExecError (same npCalls_)).
Qed.

Lemma DoAmxRelease_same_npCalls this amx_addr releaser w :
  npCalls_ (world_of (DoAmxRelease this amx_addr releaser w)) = npCalls_ w.
Proof.
  by apply (respects_DoAmxRelease (same npCalls_)).
Qed.

(** What a wrapper that returns has done, for any delegated call. *)
Lemma DoAmxCallback_returned this prevCallback_ index w retcode w' :
  DoAmxCallback this prevCallback_ index w = Returned retcode w' ->
  let call := NPCall.Native (amx_ this) (amxs (machine w) (amx_ this)) index in
  exists w1,
    prevCallback_ (set_npCalls (call :: npCalls_ w) w) = Returned retcode w1 /\
    w' = set_npCalls (tail (npCalls_ w1)) w1.
Proof.
  unfold DoAmxCallback, bind, get, push, pop, modify, ret. simpl.
  destruct (prevCallback_ _) as [rc w1 | how w1]; [| discriminate].
  intros [= <- <-]. by exists w1.
Qed.

Lemma DoAmxExec_returned this amx_Exec index w retcode w' :
  DoAmxExec this amx_Exec index w = Returned retcode w' ->
  let call := NPCall.Public (amx_ this) (amxs (machine w) (amx_ this)) index in
  exists w1,
    amx_Exec (set_npCalls (call :: npCalls_ w) w) = Returned retcode w1 /\
    npCalls_ w' = tail (npCalls_ w1).
Proof.
  unfold DoAmxExec, bind, get, push, pop, modify, ret, amx_Error. simpl.
  destruct (amx_Exec _) as [rc w1 | how w1]; [| discriminate].
  destruct (_ && _).
  - pose proof (HandleExecError_same_npCalls this index rc w1) as Hsame.
    destruct (HandleExecError this index rc w1) as [[] w2 | how w2];
      [| discriminate].
    intros [= <- <-]. exists w1. simpl in *. by rewrite Hsame.
  - intros [= <- <-]. by exists w1.
Qed.

(** A call into the host that returns leaves the call stack as it found
    it: by induction on what the host does, every hook it goes through
    being balanced in turn. *)
Lemma run_balanced (h : Host) w retcode w' :
  run h w = Returned retcode w' -> npCalls_ w' = npCalls_ w.
Proof.
  revert w retcode w'.
  induction h as [rc0 | f k IH | this index native IHn k IH
                 | this index vm IHv k IH | this index error k IH
                 | this amx_addr releaser k IH];
    intros w retcode w'; simpl.
  - unfold ret. by intros [= _ <-].
  - unfold bind, on_machine. simpl. intros Hk. by apply IH in Hk.
  - unfold bind.
    destruct (DoAmxCallback _ _ _ w) as [rc w1 | how w1] eqn:Hwrap;
      [| discriminate].
    intros Hk. apply IH in Hk. rewrite Hk.
    apply DoAmxCallback_returned in Hwrap as (w2 & Hn & ->).
    apply IHn in Hn. simpl in *. by rewrite Hn.
  - unfold bind.
    destruct (DoAmxExec _ _ _ w) as [rc w1 | how w1] eqn:Hwrap;
      [| discriminate].
    intros Hk. apply IH in Hk. rewrite Hk.
    apply DoAmxExec_returned in Hwrap as (w2 & Hv & ->).
    apply IHv in Hv. simpl in *. by rewrite Hv.
  - unfold bind, amx_Error.
    pose proof (HandleExecError_same_npCalls this index error w) as Hsame.
    destruct (HandleExecError this index error w) as [[] w1 | how w1];
      [| discriminate].
    intros Hk. apply IH in Hk. simpl in *. congruence.
  - unfold bind.
    pose proof (DoAmxRelease_same_npCalls this amx_addr releaser w) as Hsame.
    destruct (DoAmxRelease this amx_addr releaser w) as [rc w1 | how w1];
      [| discriminate].
    intros Hk. apply IH in Hk. simpl in *. congruence.
Qed.

(** C1.  A dispatch wrapper ([DoAmxCallback]) or entrypoint wrapper
    ([DoAmxExec]) that returns to its caller has pushed one Call Record,
    run the delegated call on the stack so extended, found that record on
    top again when the call came back, and popped it: the call stack after
    the wrapper equals the call stack before it.  The code it returns is
    the code the delegated call returned. *)
Theorem wrappers_push_pop_and_pass_retcode :
  (forall this index (h : Host) w retcode w',
     DoAmxCallback this (run h) index w = Returned retcode w' ->
     let call :=
       NPCall.Native (amx_ this) (amxs (machine w) (amx_ this)) index in
     exists w1,
       run h (set_npCalls (call :: npCalls_ w) w) = Returned retcode w1 /\
       npCalls_ w1 = call :: npCalls_ w /\
       npCalls_ w' = npCalls_ w) /\
  (forall this index (h : Host) w retcode w',
     DoAmxExec this (run h) index w = Returned retcode w' ->
     let call :=
       NPCall.Public (amx_ this) (amxs (machine w) (amx_ this)) index in
     exists w1,
       run h (set_npCalls (call :: npCalls_ w) w) = Returned retcode w1 /\
       npCalls_ w1 = call :: npCalls_ w /\
       npCalls_ w' = npCalls_ w).
Proof.
  split; intros this index h w retcode w' Hwrap call.
  - apply DoAmxCallback_returned in Hwrap as (w1 & Hrun & ->).
    exists w1. pose proof (run_balanced _ _ _ _ Hrun) as Hbal.
    simpl in *. fold call in Hrun, Hbal. by rewrite Hbal.
  - apply DoAmxExec_returned in Hwrap as (w1 & Hrun & Hpop).
    exists w1. pose proof (run_balanced _ _ _ _ Hrun) as Hbal.
    simpl in *. fold call in Hrun, Hbal. by rewrite Hpop, Hbal.
Qed.

(** *** The heap release validator *)

Lemma HandleReleaseError_output this address releaser w :
  exists w' evs,
    HandleReleaseError this address releaser w = Returned tt w' /\
    output w' = output w ++ bad_release :: evs /\
    machine w' = machine w.
Proof.
  destruct (total_HandleReleaseError this address releaser w)
    as ([] & w' & Hret).
  exists w'.
  assert (Hm : machine w' = machine w).
  { pose proof (respects_HandleReleaseError (same machine)
      (fun e w _ => eq_refl) this address releaser w) as H.
    by rewrite Hret in H. }
  pose proof Hret as Hrun. revert Hrun.
  unfold HandleReleaseError, PrintSystemBacktrace, bind.
  simpl. set (w3 := emit _ (emit _ (emit _ w))). intros Hrun.
  pose proof (respects_print_native_frames grows
    (fun e w _ => grows_emit e w) (StackTrace_GetFrames None) 0 w3)
    as [evs Hevs].
  rewrite Hrun in Hevs. simpl in Hevs.
  eexists. split; [exact Hret |]. split; [| exact Hm].
  rewrite Hevs. subst w3. simpl. rewrite <- !app_assoc. reflexivity.
Qed.

(** C3.  For a release request for address [A] on an instance with heap
    low-water mark [low] and stack pointer [high], the lines
    [DoAmxRelease] adds to the log contain the line "Bad heap release
    detected:" if and only if [A < low] or [A >= high]; for [A] in
    [[low, high)] it adds no line at all. *)
Theorem DoAmxRelease_reports_iff_outside this (A : cell) releaser w :
  let low := hlw (amxs (machine w) (amx_ this)) in
  let high := stk (amxs (machine w) (amx_ this)) in
  exists evs,
    output (world_of (DoAmxRelease this A releaser w)) = output w ++ evs /\
    (bad_release ∈ evs <-> A < low \/ A >= high) /\
    (low <= A < high -> evs = []).
Proof.
  intros low high. unfold DoAmxRelease, bind, get, when.
  destruct ((A <? hlw _) || (A >=? stk _)) eqn:Hout.
  - destruct (HandleReleaseError_output this A releaser w)
      as (w1 & evs & -> & Hevs & _).
    destruct (amx_Release _ _ _) as [m retcode]. simpl.
    exists (bad_release :: evs). split; [exact Hevs |].
    apply orb_true_iff in Hout. subst low high. split.
    + split; [intros _; lia | intros _; apply list_elem_of_here].
    + lia.
  - unfold ret. destruct (amx_Release _ _ _) as [m retcode]. simpl.
    exists []. split; [by rewrite app_nil_r |].
    apply orb_false_iff in Hout. subst low high. split; [| done].
    split; [intros Hin; by apply not_elem_of_nil in Hin | lia].
Qed.

(** C4.  [DoAmxRelease] always returns, with the code [amx_Release]
    answers for this instance and address on the machines as they were
    when the request came in, and leaves the machines as [amx_Release]
    left them: whether the address was flagged or not. *)
Theorem DoAmxRelease_always_releases this (A : cell) releaser w :
  exists w',
    DoAmxRelease this A releaser w =
      Returned (amx_Release (amx_ this) A (machine w)).2 w' /\
    machine w' = (amx_Release (amx_ this) A (machine w)).1.
Proof.
  unfold DoAmxRelease, bind, get, when.
  destruct ((A <? hlw _) || (A >=? stk _)).
  - destruct (HandleReleaseError_output this A releaser w)
      as (w1 & evs & -> & _ & ->).
    destruct (amx_Release _ _ _) as [m retcode]. simpl. by eexists.
  - unfold ret. destruct (amx_Release _ _ _) as [m retcode]. simpl.
    by eexists.
Qed.

(** *** The backtrace printer with nothing to print *)

(** C10.  With an empty call stack, or with the instruction pointer of the
    machine of the topmost Call Record at zero, [PrintAmxBacktrace]
    returns at once and the world, its log included, is as before: no
    header, no frame, no synthesized entrypoint frame. *)
Theorem PrintAmxBacktrace_silent w :
  npCalls_ w = [] \/
  (exists top rest,
     npCalls_ w = top :: rest /\
     cip (amxs (machine w) (NPCall.amx top)) = 0) ->
  PrintAmxBacktrace w = Returned tt w.
Proof.
  unfold PrintAmxBacktrace, bind, get.
  intros [-> | (top & rest & -> & ->)]; reflexivity.
Qed.

(** *** The error classifier *)

Lemma HandleExecError_sentinel this w :
  HandleExecError this AMX_EXEC_GDK AMX_ERR_INDEX w =
    Returned tt (set_errorCaught true w).
Proof.
  unfold HandleExecError, bind, modify. by rewrite !Z.eqb_refl.
Qed.

(** C6.  For the error "index not found" at the debugger-detach sentinel
    index [-10], [HandleExecError] returns at once: the world it leaves
    differs from the one it found in the latch only.  The log has no new
    line (no "Run time error", no detail line, no backtrace), no command
    was run, and the handler returns even when [die_on_error] is set. *)
Theorem HandleExecError_sentinel_is_quiet this w :
  HandleExecError this AMX_EXEC_GDK AMX_ERR_INDEX w =
    Returned tt (set_errorCaught true w) /\
  output (set_errorCaught true w) = output w.
Proof.
  split; [apply HandleExecError_sentinel | reflexivity].
Qed.

(** The latch is written before it is read: nothing in the handler after
    its first statement writes [errorCaught_]. *)
Lemma HandleExecError_latch this index error w :
  errorCaught_ (world_of (HandleExecError this index error w)) = true.
Proof.
  assert (Hlines : forall e w, e <> header ->
            same errorCaught_ w (emit e w)) by done.
  unfold HandleExecError.
  match goal with
  | |- errorCaught_ (world_of (bind (modify _) ?k w)) = true =>
    change (same errorCaught_ (set_errorCaught true w)
              (world_of (k tt (set_errorCaught true w))));
    generalize (set_errorCaught true w);
    change (respects (same errorCaught_) (k tt))
  end.
  cbv beta.
  repeat first
    [ apply (respects_logprintf_any (same errorCaught_)); done
    | apply (respects_describe_error (same errorCaught_) Hlines)
    | apply (respects_PrintAmxBacktrace (same errorCaught_)); done
    | apply (respects_system (same errorCaught_) Hlines)
    | apply (respects_DieOrContinue (same errorCaught_) Hlines)
    | respects_step ].
Qed.

(** C9.  Whatever the arguments and whatever the latch was, the handler
    leaves [errorCaught_] set, on the sentinel path as on every other,
    and its outcome does not depend on the value the latch had: the latch
    is written first.  So when the machine reports the benign
    pseudo-error while [::amx_Exec] runs and [::amx_Exec] then returns a
    code, [DoAmxExec] hands nothing to the classifier: it returns that
    code and the world is the one it started from with the latch
    cleared. *)
Theorem latch_set_on_every_entry :
  (forall this index error w,
     errorCaught_ (world_of (HandleExecError this index error w)) = true /\
     forall b,
       HandleExecError this index error (set_errorCaught b w) =
       HandleExecError this index error w) /\
  (forall this handler index retcode w,
     DoAmxExec this
       (run (HError handler AMX_EXEC_GDK AMX_ERR_INDEX (HReturn retcode)))
       index w =
     Returned retcode (set_errorCaught false w)).
Proof.
  split.
  - intros this index error w. split; [apply HandleExecError_latch |].
    intros b. reflexivity.
  - intros this handler index retcode w.
    unfold DoAmxExec, bind, get, push, pop, modify, ret. simpl.
    unfold bind, amx_Error.
    rewrite HandleExecError_sentinel. simpl. by rewrite andb_false_r.
Qed.

(** *** When the classifier prints the AMX backtrace *)

Lemma world_of_bind {A B} (c : M A) (k : A -> M B) w :
  world_of (bind c k w) =
  match c w with
  | Returned a w1 => world_of (k a w1)
  | Stopped _ w1 => w1
  end.
Proof. unfold bind. by destruct (c w). Qed.

Lemma respects_after (R : relation World) `{!PreOrder R} {A B}
    (c : M A) (k : A -> M B) w :
  (forall a, respects R (k a)) -> R (world_of (c w)) (world_of (bind c k w)).
Proof.
  intros Hk. rewrite world_of_bind. destruct (c w) as [a w1 | how w1]; simpl.
  - apply Hk.
  - reflexivity.
Qed.

(** With a call in flight on a running machine the printer begins with
    the header line. *)
Lemma PrintAmxBacktrace_header w top rest :
  npCalls_ w = top :: rest ->
  cip (amxs (machine w) (NPCall.amx top)) <> 0 ->
  exists evs,
    output (world_of (PrintAmxBacktrace w)) = output w ++ header :: evs.
Proof.
  intros Hstack Hcip. unfold PrintAmxBacktrace, bind, get. rewrite Hstack.
  apply Z.eqb_neq in Hcip. rewrite Hcip.
  unfold logprintf, modify. simpl.
  match goal with
  | |- context [trace_calls ?a ?l ?f ?c ?n ?w1] =>
    destruct (respects_trace_calls grows grows_emit grows_machine
      a l f c n w1) as [evs Hevs];
    exists evs; rewrite Hevs
  end.
  simpl. by rewrite <- app_assoc.
Qed.

Lemma no_backtrace_false (error : Z) :
  negb (error =? AMX_ERR_NOTFOUND) && negb (error =? AMX_ERR_INDEX) &&
  negb (error =? AMX_ERR_CALLBACK) && negb (error =? AMX_ERR_INIT) = true <->
  error <> AMX_ERR_NOTFOUND /\ error <> AMX_ERR_INDEX /\
  error <> AMX_ERR_CALLBACK /\ error <> AMX_ERR_INIT.
Proof.
  rewrite !andb_true_iff, !negb_true_iff, !Z.eqb_neq. tauto.
Qed.

(** C5.  Take a world in which a backtrace shows: a call is in flight and
    the instruction pointer of its machine is not zero, so that
    [PrintAmxBacktrace] writes its header when it is called (C10 has the
    other worlds, where calling it changes nothing).  Then the lines the
    classifier adds for error code [E] contain the header "AMX backtrace:"
    if and only if [E] is none of "native function not found", "index not
    found", "callback error" and "not initialized". *)
Theorem HandleExecError_backtrace_iff this index error w top rest :
  npCalls_ w = top :: rest ->
  cip (amxs (machine w) (NPCall.amx top)) <> 0 ->
  exists evs,
    output (world_of (HandleExecError this index error w)) =
      output w ++ evs /\
    (header ∈ evs <->
     error <> AMX_ERR_NOTFOUND /\ error <> AMX_ERR_INDEX /\
     error <> AMX_ERR_CALLBACK /\ error <> AMX_ERR_INIT).
Proof.
  intros Hstack Hcip.
  enough (exists evs,
    output (world_of (HandleExecError this index error w)) =
      output w ++ evs /\
    (header ∈ evs <->
     negb (error =? AMX_ERR_NOTFOUND) && negb (error =? AMX_ERR_INDEX) &&
     negb (error =? AMX_ERR_CALLBACK) && negb (error =? AMX_ERR_INIT) = true))
    as (evs & Hout & Hiff).
  { exists evs. split; [exact Hout |]. by rewrite <- no_backtrace_false. }
  assert (Hquiet : forall e w, e <> header -> headerless w (emit e w))
    by apply headerless_emit.
  assert (Hgrow : forall e w, e <> header -> grows w (emit e w))
    by (intros; apply grows_emit).
  unfold HandleExecError. rewrite world_of_bind. unfold modify at 1.
  set (w0 := set_errorCaught true w).
  destruct ((error =? AMX_ERR_INDEX) && (index =? AMX_EXEC_GDK)) eqn:Hgdk.
  { exists []. simpl. split; [by rewrite app_nil_r |].
    apply andb_true_iff in Hgdk as [-> _]. simpl.
    rewrite andb_false_r. simpl. split; [| done].
    intros Hin. by apply not_elem_of_nil in Hin. }
  destruct (negb (error =? AMX_ERR_NOTFOUND) && negb (error =? AMX_ERR_INDEX)
            && negb (error =? AMX_ERR_CALLBACK) && negb (error =? AMX_ERR_INIT))
    eqn:Hguard.
  - (* the backtrace is printed *)
    rewrite world_of_bind. unfold logprintf at 1, modify at 1.
    set (w1 := emit _ w0).
    rewrite world_of_bind.
    destruct (total_describe_error this error w1) as ([] & w2 & Hd).
    pose proof (respects_describe_error grows Hgrow this error w1)
      as [evs_d Hevs_d].
    pose proof (respects_describe_error (same npCalls_)
      (fun e w _ => eq_refl) this error w1) as Hsame_stack.
    pose proof (respects_describe_error (same machine)
      (fun e w _ => eq_refl) this error w1) as Hsame_machine.
    rewrite Hd in *. simpl in Hevs_d, Hsame_stack, Hsame_machine.
    unfold same in Hsame_stack, Hsame_machine. simpl in *.
    destruct (PrintAmxBacktrace_header w2 top rest) as [evs_p Hevs_p];
      [congruence | by rewrite Hsame_machine |].
    match goal with
    | |- context [world_of (bind PrintAmxBacktrace ?k w2)] =>
      destruct (respects_after grows PrintAmxBacktrace k w2)
        as [evs_t Hevs_t]
    end.
    { intros _.
      repeat first
        [ apply (respects_system grows Hgrow)
        | apply (respects_DieOrContinue grows Hgrow) | respects_step ]. }
    eexists. split.
    + rewrite Hevs_t, Hevs_p, Hevs_d. subst w1 w0. simpl.
      rewrite <- !app_assoc. reflexivity.
    + split; [done | intros _].
      rewrite !elem_of_app. right. right. left. apply list_elem_of_here.
  - (* no backtrace: every line written is another line *)
    match goal with
    | |- context [world_of (?c w0)] =>
      assert (Hc : respects headerless c)
    end.
    { simpl.
      repeat first
        [ apply (respects_logprintf headerless Hquiet); discriminate
        | apply (respects_describe_error headerless Hquiet)
        | apply (respects_system headerless Hquiet)
        | apply (respects_DieOrContinue headerless Hquiet) | respects_step ]. }
    destruct (Hc w0) as (evs & Hevs & Hno). exists evs.
    split; [exact Hevs |]. split; [done | discriminate].
Qed.

(** *** The fatal-on-error policy *)

Lemma HandleExecError_report this index error w :
  (error =? AMX_ERR_INDEX) && (index =? AMX_EXEC_GDK) = false ->
  HandleExecError this index error w =
  bind (report this error) (fun _ => DieOrContinue) (set_errorCaught true w).
Proof.
  intros Hgdk. unfold HandleExecError, report. rewrite Hgdk.
  unfold bind at 1. unfold modify at 1.
  generalize (set_errorCaught true w). intros w0. unfold bind.
  repeat match goal with
  | |- context [match ?c with Returned _ _ => _ | Stopped _ _ => _ end] =>
    destruct c as [[] ? | ? ?]
  end; reflexivity.
Qed.

Lemma report_same_serverCfg this error w :
  serverCfg (world_of (report this error w)) = serverCfg w.
Proof.
  assert (Hlines : forall e w, e <> header -> same serverCfg w (emit e w))
    by done.
  change (same serverCfg w (world_of (report this error w))).
  revert w. change (respects (same serverCfg) (report this error)).
  unfold report.
  repeat first
    [ apply (respects_logprintf_any (same serverCfg)); done
    | apply (respects_describe_error (same serverCfg) Hlines)
    | apply (respects_PrintAmxBacktrace (same serverCfg)); done
    | apply (respects_system (same serverCfg) Hlines)
    | respects_step ].
Qed.

(** C8.  For an error that is not the benign sentinel pseudo-error, once
    the classifier has written its lines and run the configured command
    (the reporting part has returned, leaving world [w1]), the outcome is
    decided by [die_on_error] alone: if the option is set the process
    exits with status [EXIT_FAILURE], which is not zero, after the line
    "Aborting..."; if it is not set the handler returns to its caller
    with the world as the reporting left it. *)
Theorem HandleExecError_dies_or_continues this index error w w1 :
  ~ (error = AMX_ERR_INDEX /\ index = AMX_EXEC_GDK) ->
  report this error (set_errorCaught true w) = Returned tt w1 ->
  HandleExecError this index error w =
    (if GetOption_bool (serverCfg w) "die_on_error" false
     then Stopped (Exit EXIT_FAILURE)
            (emit (Vlogprintf "[debug] Aborting..." []) w1)
     else Returned tt w1) /\
  EXIT_FAILURE <> 0.
Proof.
  intros Hgdk Hreport. split; [| done].
  rewrite HandleExecError_report.
  - pose proof (report_same_serverCfg this error (set_errorCaught true w))
      as Hcfg.
    unfold bind. rewrite Hreport in *. simpl in Hcfg.
    unfold DieOrContinue, bind, get. rewrite Hcfg.
    by destruct (GetOption_bool _ _ _).
  - apply andb_false_iff.
    destruct (Z.eqb_spec error AMX_ERR_INDEX); [| by left].
    destruct (Z.eqb_spec index AMX_EXEC_GDK); [| by right].
    by destruct Hgdk.
Qed.

(** *** The entrypoint frame of an empty walk *)

(** One turn of the stitcher's loop for an entrypoint Call Record of a
    registered instance.  If the walk of the machine's frames, started
    after the return address and the frame pointer were pushed, yields no
    frame, the turn returns with the level advanced by one; it leaves the
    machine as the two pops left it and the log longer by exactly one
    line, the line of a frame at the address of the record's entrypoint
    ([GetPublicAddr] at the record's index). *)
Lemma trace_public_empty_walk call frm0 cip0 level w instance :
  let amx := NPCall.amx call in
  let debugInfo := debugInfo_ instance in
  let pushed := PushStack amx frm0 (PushStack amx cip0 (machine w)) in
  let walk := AMXStackTrace pushed amx (stk (amxs pushed amx)) debugInfo in
  let popped := PopStack amx (PopStack amx pushed).2 in
  let entry :=
    {| frame_amx := amx; GetFrameAddr := (PopStack amx pushed).1;
       GetRetAddr := 0;
       GetFunAddr := GetPublicAddr popped.2 amx (NPCall.index call);
       frame_debugInfo := debugInfo |} in
  let from :=
    if empty (amxName_ instance) || IsLoaded debugInfo then EmptyString
    else " from " +:+ amxName_ instance in
  instances_ w !! amx = Some instance ->
  collect_frames walk.1 walk.2 = [] ->
  trace_public call frm0 cip0 level w =
    Returned (level + 1)
      (emit
         (Vlogprintf "[debug] #%d %s%s"
            [ArgInt level; ArgStr (AMXStackFrame_AsString popped.2 entry);
             ArgStr from])
         (set_machine popped.2 w)).
Proof.
  intros amx debugInfo pushed walk popped entry from Hinst Hwalk.
  unfold trace_public, instance_at, bind, get, on_machine. simpl.
  fold amx. rewrite Hinst. simpl. fold debugInfo pushed.
  fold walk. destruct walk as [frame rest] eqn:Hw. simpl in Hwalk.
  rewrite Hwalk.
  subst entry from popped.
  destruct (PopStack amx pushed) as [frm1 m3]. simpl.
  destruct (PopStack amx m3) as [cip1 m4]. simpl. rewrite Hinst. simpl.
  reflexivity.
Qed.

(** The turn inside the loop: the loop goes on with the records below,
    from the frame and instruction pointers the record has captured. *)
Lemma trace_calls_empty_walk call rest frm0 cip0 level w instance :
  let amx := NPCall.amx call in
  let debugInfo := debugInfo_ instance in
  let pushed := PushStack amx frm0 (PushStack amx cip0 (machine w)) in
  let walk := AMXStackTrace pushed amx (stk (amxs pushed amx)) debugInfo in
  let popped := PopStack amx (PopStack amx pushed).2 in
  let entry :=
    {| frame_amx := amx; GetFrameAddr := (PopStack amx pushed).1;
       GetRetAddr := 0;
       GetFunAddr := GetPublicAddr popped.2 amx (NPCall.index call);
       frame_debugInfo := debugInfo |} in
  let from :=
    if empty (amxName_ instance) || IsLoaded debugInfo then EmptyString
    else " from " +:+ amxName_ instance in
  cip0 <> 0 ->
  NPCall.IsPublic call = true ->
  instances_ w !! amx = Some instance ->
  collect_frames walk.1 walk.2 = [] ->
  trace_calls amx (call :: rest) frm0 cip0 level w =
    trace_calls amx rest (NPCall.frm call) (NPCall.cip call) (level + 1)
      (emit
         (Vlogprintf "[debug] #%d %s%s"
            [ArgInt level; ArgStr (AMXStackFrame_AsString popped.2 entry);
             ArgStr from])
         (set_machine popped.2 w)).
Proof.
  intros amx debugInfo pushed walk popped entry from Hcip Hpublic Hinst
    Hwalk.
  cbn [trace_calls]. fold amx.
  rewrite (proj2 (Z.eqb_neq cip0 0) Hcip), Z.eqb_refl. cbn [negb].
  assert (Hnative : NPCall.IsNative call = false).
  { revert Hpublic. unfold NPCall.IsNative, NPCall.IsPublic.
    by destruct (NPCall.type_ call). }
  rewrite Hnative, Hpublic. unfold bind at 1.
  by rewrite (trace_public_empty_walk call frm0 cip0 level w instance Hinst
                Hwalk).
Qed.

(** *** The double-report latch in the entrypoint wrapper *)

(** Once [::amx_Exec] has returned, the wrapper hands its code to the
    classifier exactly when the code is not [AMX_ERR_NONE] and the latch
    is not set; otherwise it clears the latch. *)
Lemma DoAmxExec_forwards_iff_latch_unset this amx_Exec index w retcode w1 :
  let call := NPCall.Public (amx_ this) (amxs (machine w) (amx_ this)) index in
  amx_Exec (set_npCalls (call :: npCalls_ w) w) = Returned retcode w1 ->
  DoAmxExec this amx_Exec index w =
    (if negb (retcode =? AMX_ERR_NONE) && negb (errorCaught_ w1) then
       bind (amx_Error this index retcode) (fun _ =>
       bind pop (fun _ => ret retcode)) w1
     else
       Returned retcode
         (set_npCalls (tail (npCalls_ w1)) (set_errorCaught false w1))).
Proof.
  intros call Hexec. unfold DoAmxExec, bind, get, push, modify. simpl.
  fold call. rewrite Hexec. simpl. by destruct (_ && _).
Qed.

(** A failure seen while [::amx_Exec] was running and seen again by the
    wrapper is not classified a second time. *)
Lemma DoAmxExec_reobserved_failure this handler index0 index error w w1 :
  let call := NPCall.Public (amx_ this) (amxs (machine w) (amx_ this)) index in
  HandleExecError handler index0 error (set_npCalls (call :: npCalls_ w) w) =
    Returned tt w1 ->
  DoAmxExec this (run (HError handler index0 error (HReturn error))) index w =
    Returned error (set_npCalls (npCalls_ w) (set_errorCaught false w1)).
Proof.
  intros call Hhandle.
  pose proof (HandleExecError_latch handler index0 error
    (set_npCalls (call :: npCalls_ w) w)) as Hlatch.
  pose proof (HandleExecError_same_npCalls handler index0 error
    (set_npCalls (call :: npCalls_ w) w)) as Hstack.
  rewrite Hhandle in Hlatch, Hstack. simpl in Hlatch, Hstack.
  rewrite (DoAmxExec_forwards_iff_latch_unset _ _ _ _ error w1).
  - rewrite Hlatch, andb_false_r. by rewrite Hstack.
  - simpl. unfold bind, amx_Error. fold call. by rewrite Hhandle.
Qed.

(** A failure the wrapper itself hands to the classifier leaves the latch
    set when the wrapper returns. *)
Lemma DoAmxExec_forwarded_leaves_latch_set this index retcode w w' :
  retcode <> AMX_ERR_NONE ->
  errorCaught_ w = false ->
  DoAmxExec this (run (HReturn retcode)) index w = Returned retcode w' ->
  errorCaught_ w' = true.
Proof.
  intros Hfail Hlatch.
  rewrite (DoAmxExec_forwards_iff_latch_unset _ _ _ _ retcode _ eq_refl).
  simpl. rewrite Hlatch. apply Z.eqb_neq in Hfail. rewrite Hfail. simpl.
  unfold bind, amx_Error.
  match goal with
  | |- context [HandleExecError this index retcode ?w1] =>
    pose proof (HandleExecError_latch this index retcode w1) as Hset;
    destruct (HandleExecError this index retcode w1) as [[] w2 | how w2]
  end; [| discriminate].
  unfold pop, modify, ret. simpl. intros [= <-]. exact Hset.
Qed.

(** With the latch left set, the wrapper does not hand the next failure
    to the classifier: it returns the code and clears the latch, and
    nothing is written. *)
Lemma DoAmxExec_stale_latch_swallows this index retcode w :
  errorCaught_ w = true ->
  DoAmxExec this (run (HReturn retcode)) index w =
    Returned retcode (set_errorCaught false w).
Proof.
  intros Hlatch.
  rewrite (DoAmxExec_forwards_iff_latch_unset _ _ _ _ retcode _ eq_refl).
  simpl. by rewrite Hlatch, andb_false_r.
Qed.

End Claims.

(** ** The claims on the concrete build *)
Section Concrete.
Local Existing Instance pawn_env.

(** C2.  Two top-level entrypoint invocations in a row, each for an
    entrypoint index (3) the script does not have, so that [::amx_Exec]
    returns early with code 20 ([AMX_ERR_INDEX]) and the classifier is not
    called while it runs; [die_on_error] is off and the latch starts
    cleared.  The first failure is reported and the wrapper returns with
    the latch still set.  The second, independent failure is then not
    classified: the wrapper returns its code, writes no line and clears
    the latch. *)
Theorem second_failure_in_a_row_is_not_reported :
  let first := DoAmxExec script0 (run (HReturn 20)) 3 world0 in
  let second := DoAmxExec script0 (run (HReturn 20)) 3 (world_of first) in
  npCalls_ world0 = [] /\ errorCaught_ world0 = false /\
  returns first = true /\
  output (world_of first) = [run_time_error_20] /\
  npCalls_ (world_of first) = [] /\
  errorCaught_ (world_of first) = true /\
  second = Returned 20 (set_errorCaught false (world_of first)) /\
  output (world_of second) = [run_time_error_20].
Proof.
  cbv zeta. repeat split; vm_compute; reflexivity.
Qed.

(** The nested call [host0] under a top-level entrypoint call, and a
    native call on its own: both wrappers return and the stack is as
    before. *)
Lemma wrappers_push_pop_on_host0 :
  let exec := DoAmxExec script0 (run host0) 3 world0 in
  let callback := DoAmxCallback script0 (run (HReturn 0)) 2 world0_in_call in
  (exec = Returned 4 (world_of exec) /\
   npCalls_ (world_of exec) = npCalls_ world0) /\
  (callback = Returned 0 (world_of callback) /\
   npCalls_ (world_of callback) = npCalls_ world0_in_call).
Proof.
  cbv zeta.
  assert (Hexec : DoAmxExec script0 (run host0) 3 world0 =
            Returned 4 (world_of (DoAmxExec script0 (run host0) 3 world0)))
    by (vm_compute; reflexivity).
  assert (Hcallback :
            DoAmxCallback script0 (run (HReturn 0)) 2 world0_in_call =
            Returned 0 (world_of
              (DoAmxCallback script0 (run (HReturn 0)) 2 world0_in_call)))
    by (vm_compute; reflexivity).
  split; (split; [assumption |]).
  - destruct (proj2 wrappers_push_pop_and_pass_retcode script0 3 host0
      world0 4 _ Hexec) as (w1 & _ & _ & Hsame).
    exact Hsame.
  - destruct (proj1 wrappers_push_pop_and_pass_retcode script0 2 (HReturn 0)
      world0_in_call 0 _ Hcallback) as (w1 & _ & _ & Hsame).
    exact Hsame.
Defined.

(** Address 150 lies in the live range [[100, 200)] of the script: the
    release is not reported. *)
Lemma DoAmxRelease_in_range_on_world0 :
  100 <= 150 < 200 /\
  output (world_of (DoAmxRelease script0 150 7 world0)) = [].
Proof.
  split; [lia |].
  destruct (DoAmxRelease_reports_iff_outside script0 150 7 world0)
    as (evs & Hout & _ & Hin).
  rewrite Hout, Hin; [reflexivity | simpl; lia].
Defined.

(** Error 4 while entrypoint 3 is running: the header is among the lines. *)
Lemma HandleExecError_backtrace_on_world0 :
  (npCalls_ world0_in_call = [call0] /\
   cip (amxs (machine world0_in_call) (NPCall.amx call0)) <> 0) /\
  exists evs,
    output (world_of (HandleExecError script0 3 4 world0_in_call)) =
      output world0_in_call ++ evs /\
    (header ∈ evs <->
     4 <> AMX_ERR_NOTFOUND /\ 4 <> AMX_ERR_INDEX /\
     4 <> AMX_ERR_CALLBACK /\ 4 <> AMX_ERR_INIT).
Proof.
  assert (Hstack : npCalls_ world0_in_call = [call0]) by reflexivity.
  assert (Hcip : cip (amxs (machine world0_in_call) (NPCall.amx call0)) <> 0)
    by (simpl; lia).
  split; [split; assumption |].
  exact (HandleExecError_backtrace_iff script0 3 4 world0_in_call call0 []
           Hstack Hcip).
Defined.

(** Error 4 at entrypoint 3 with [die_on_error] set, and with it unset. *)
Lemma HandleExecError_dies_or_continues_on_world0 :
  HandleExecError script0 3 4 world0_fatal =
    Stopped (Exit EXIT_FAILURE)
      (emit (Vlogprintf "[debug] Aborting..." [])
         (world_of (report script0 4 (set_errorCaught true world0_fatal)))) /\
  HandleExecError script0 3 4 world0 =
    Returned tt (world_of (report script0 4 (set_errorCaught true world0))).
Proof.
  assert (Hreal : ~ (4 = AMX_ERR_INDEX /\ 3 = AMX_EXEC_GDK))
    by (intros [_ Hgdk]; discriminate Hgdk).
  assert (Hfatal : report script0 4 (set_errorCaught true world0_fatal) =
            Returned tt
              (world_of (report script0 4 (set_errorCaught true world0_fatal))))
    by (vm_compute; reflexivity).
  assert (Hsoft : report script0 4 (set_errorCaught true world0) =
            Returned tt
              (world_of (report script0 4 (set_errorCaught true world0))))
    by (vm_compute; reflexivity).
  assert (Hon : GetOption_bool (serverCfg world0_fatal) "die_on_error" false
                = true) by (vm_compute; reflexivity).
  assert (Hoff : GetOption_bool (serverCfg world0) "die_on_error" false
                 = false) by (vm_compute; reflexivity).
  split.
  - destruct (HandleExecError_dies_or_continues script0 3 4 world0_fatal
                _ Hreal Hfatal) as [Hdie _].
    rewrite Hon in Hdie. exact Hdie.
  - destruct (HandleExecError_dies_or_continues script0 3 4 world0
                _ Hreal Hsoft) as [Hcontinue _].
    rewrite Hoff in Hcontinue. exact Hcontinue.
Defined.

(** No call in flight: nothing is printed. *)
Lemma PrintAmxBacktrace_silent_on_world0 :
  npCalls_ world0 = [] /\ PrintAmxBacktrace world0 = Returned tt world0.
Proof.
  split; [reflexivity |].
  apply PrintAmxBacktrace_silent. left. reflexivity.
Defined.

End Concrete.
(** * Further properties of the code *)

(** ** The search paths read from AMX_PATH *)

Lemma AddSearchPaths_step sep var begin pathFinder :
  AddSearchPaths sep var begin pathFinder =
  if decide (begin < String.length var)%nat then
    let end_ := match find sep begin var with
                | Some e => e
                | None => String.length var
                end in
    let path := substring begin (end_ - begin) var in
    AddSearchPaths sep var (end_ + 1)
      (if empty path then pathFinder else pathFinder ++ [path])
  else pathFinder.
Proof.
  rewrite AddSearchPaths_equation_1.
  destruct (lt_dec begin (String.length var)) as [Hlt | Hge];
    destruct (decide _); try lia.
  - apply AddSearchPaths_clause_1_equation_1.
  - apply AddSearchPaths_clause_1_equation_2.
Qed.

Lemma AddSearchPaths_shift sep a var begin pathFinder :
  AddSearchPaths sep (String a var) (S begin) pathFinder =
  AddSearchPaths sep var begin pathFinder.
Proof.
  remember (String.length var - begin)%nat as fuel eqn:Hfuel.
  revert begin pathFinder Hfuel.
  induction fuel as [fuel IH] using lt_wf_ind. intros begin pathFinder ->.
  rewrite (AddSearchPaths_step sep (String a var)),
    (AddSearchPaths_step sep var).
  simpl String.length.
  destruct (decide (begin < String.length var)%nat) as [Hlt | Hge];
    destruct (decide (S begin < S (String.length var))%nat); try lia;
    [| reflexivity].
  cbv zeta. simpl find.
  assert (Hfind : forall s pos e, find sep pos s = Some e -> (pos <= e)%nat).
  { induction s as [| b s IHs]; intros pos e; simpl; [discriminate |].
    destruct pos as [| pos]; [intros _; lia |].
    destruct (find sep pos s) as [e' |] eqn:Hf; simpl; [| discriminate].
    intros [= <-]. apply IHs in Hf. lia. }
  destruct (find sep begin var) as [e |] eqn:Hf; simpl.
  - apply Hfind in Hf.
    replace (S e - S begin)%nat with (e - begin)%nat by lia.
    apply (IH (String.length var - (e + 1))%nat); [lia | reflexivity].
  - replace (S (String.length var) - S begin)%nat
      with (String.length var - begin)%nat by lia.
    apply (IH (String.length var - (String.length var + 1))%nat);
      [lia | reflexivity].
Qed.

Lemma AddSearchPaths_skip sep n var begin pathFinder :
  AddSearchPaths sep var (n + begin) pathFinder =
  AddSearchPaths sep (skip n var) begin pathFinder.
Proof.
  revert var. induction n as [| n IH]; intros var; [reflexivity |].
  destruct var as [| a var]; simpl.
  - rewrite (AddSearchPaths_step _ _ (S n + begin)),
      (AddSearchPaths_step _ _ begin).
    change (String.length EmptyString) with 0%nat.
    rewrite !decide_False by lia. reflexivity.
  - rewrite AddSearchPaths_shift. apply IH.
Qed.

Lemma skip_length n s : String.length (skip n s) = (String.length s - n)%nat.
Proof.
  revert s. induction n as [| n IH]; intros [| a s]; simpl; try lia.
  apply IH.
Qed.

Lemma skip_all n s : (String.length s <= n)%nat -> skip n s = EmptyString.
Proof.
  revert s. induction n as [| n IH]; intros [| a s]; simpl; try done; try lia.
  intros Hle. apply IH. lia.
Qed.

Lemma substring_all s : substring 0 (String.length s) s = s.
Proof. induction s as [| a s IH]; simpl; [done | by rewrite IH]. Qed.

Lemma empty_true s : empty s = true <-> s = EmptyString.
Proof. destruct s; simpl; split; congruence. Qed.

Lemma fields_first sep s :
  fields sep s =
  match find sep 0 s with
  | Some e => substring 0 e s :: fields sep (skip (S e) s)
  | None => [s]
  end.
Proof.
  induction s as [| a s IH]; simpl; [reflexivity |].
  destruct (Ascii.eqb a sep); [reflexivity |].
  rewrite IH. destruct (find sep 0 s) as [e |]; reflexivity.
Qed.

Lemma find_lt sep pos s e :
  find sep pos s = Some e -> (pos <= e < String.length s)%nat.
Proof.
  revert pos e. induction s as [| a s IH]; intros pos e; simpl;
    [discriminate |].
  destruct pos as [| pos].
  - destruct (Ascii.eqb a sep); [intros [= <-]; lia |].
    destruct (find sep 0 s) as [e' |] eqn:Hf; simpl; [| discriminate].
    intros [= <-]. apply IH in Hf. lia.
  - destruct (find sep pos s) as [e' |] eqn:Hf; simpl; [| discriminate].
    intros [= <-]. apply IH in Hf. lia.
Qed.

Lemma AddSearchPaths_fields sep var pathFinder :
  AddSearchPaths sep var 0 pathFinder =
  pathFinder ++ filter (fun path => path <> EmptyString) (fields sep var).
Proof.
  remember (String.length var) as n eqn:Hn. revert var pathFinder Hn.
  induction n as [n IH] using lt_wf_ind. intros var pathFinder ->.
  rewrite AddSearchPaths_step, fields_first.
  destruct (decide (0 < String.length var)%nat) as [Hpos | Hzero].
  - cbv zeta. destruct (find sep 0 var) as [e |] eqn:Hfind.
    + apply find_lt in Hfind as He.
      rewrite Nat.sub_0_r.
      replace (e + 1)%nat with (S e + 0)%nat by lia.
      rewrite AddSearchPaths_skip.
      rewrite (IH (String.length (skip (S e) var))); [| | reflexivity].
      * rewrite filter_cons.
        destruct (empty (substring 0 e var)) eqn:Hempty.
        -- apply empty_true in Hempty. rewrite Hempty.
           by rewrite decide_False by auto.
        -- rewrite decide_True; [by rewrite <- app_assoc |].
           intros Heq. apply empty_true in Heq. congruence.
      * rewrite skip_length. lia.
    + rewrite Nat.sub_0_r, substring_all.
      replace (String.length var + 1)%nat
        with (S (String.length var) + 0)%nat by lia.
      rewrite AddSearchPaths_skip, skip_all by lia.
      rewrite AddSearchPaths_step. simpl.
      destruct var as [| a var]; [simpl in Hpos; lia |]. simpl.
      rewrite filter_cons, filter_nil. by rewrite decide_True.
  - destruct var as [| a var]; [| simpl in Hzero; lia]. simpl.
    rewrite filter_cons, filter_nil. rewrite decide_False by auto.
    by rewrite app_nil_r.
Qed.

Lemma fields_no_separator sep s field :
  field ∈ fields sep s -> forall i, String.get i field <> Some sep.
Proof.
  revert field. induction s as [| a s IH]; intros field; simpl.
  - rewrite list_elem_of_singleton. intros -> i. by destruct i.
  - destruct (Ascii.eqb a sep) eqn:Ha.
    + rewrite elem_of_cons. intros [-> | Hin]; [by intros [] | by apply IH].
    + destruct (fields sep s) as [| f fs] eqn:Hf.
      * rewrite list_elem_of_singleton. intros -> [| [| i]]; simpl; try done.
        intros [= ->]. by rewrite Ascii.eqb_refl in Ha.
      * rewrite elem_of_cons. intros [-> | Hin].
        -- intros [| i]; simpl.
           ++ intros [= ->]. by rewrite Ascii.eqb_refl in Ha.
           ++ apply IH. apply list_elem_of_here.
        -- apply IH. by apply list_elem_of_further.
Qed.

Section SearchPaths.
Context `{loader : Loader}.

(** X1.  The search paths the constructor hands to [FindAMX] are
    "gamemodes", "filterscripts" and then the fields of AMX_PATH between
    separators, in their order, the empty fields left out (a doubled or
    trailing separator adds no path); without AMX_PATH, the two
    directories alone. *)
Theorem search_paths_are_the_fields_of_AMX_PATH :
  search_paths =
  ["gamemodes"; "filterscripts"] ++
  match getenv "AMX_PATH" with
  | Some var =>
    filter (fun path => path <> EmptyString)
      (fields kNativePathListSepChar var)
  | None => []
  end.
Proof.
  unfold search_paths. cbv zeta.
  destruct (getenv "AMX_PATH") as [var |]; [| reflexivity].
  rewrite AddSearchPaths_fields. reflexivity.
Qed.

(** X2.  Whatever AMX_PATH holds, the loop adds no empty search path and
    no path that contains the separator, and it keeps the paths that were
    there. *)
Theorem AddSearchPaths_adds_clean_paths sep var pathFinder :
  exists added,
    AddSearchPaths sep var 0 pathFinder = pathFinder ++ added /\
    forall path, path ∈ added ->
      path <> EmptyString /\ forall i, String.get i path <> Some sep.
Proof.
  eexists. split; [apply AddSearchPaths_fields |].
  intros path [Hne Hin]%list_elem_of_filter. split; [exact Hne |].
  by apply (fields_no_separator sep var).
Qed.

End SearchPaths.

(** ** The registry of instances *)

Section Registry.
Context `{env : Env} `{loader : Loader}.

Lemma crashdetect_ctor_returns amx w :
  exists c m,
    crashdetect_ctor amx w = Returned c (set_machine m w) /\ amx_ c = amx.
Proof.
  unfold crashdetect_ctor, bind, get, on_machine, ret. simpl.
  eexists _, _. split; reflexivity.
Qed.

Lemma set_instances_same w : set_instances (instances_ w) w = w.
Proof. by destruct w. Qed.

Lemma GetInstance_found amx c w :
  instances_ w !! amx = Some c -> GetInstance amx w = Returned c w.
Proof. intros Hc. unfold GetInstance, bind, get. by rewrite Hc. Qed.

Lemma GetInstance_returns amx w :
  exists c w',
    GetInstance amx w = Returned c w' /\
    instances_ w' !! amx = Some c /\
    npCalls_ w' = npCalls_ w /\ output w' = output w.
Proof.
  destruct (instances_ w !! amx) as [c0 |] eqn:Hc0.
  - exists c0, w. by rewrite (GetInstance_found _ _ _ Hc0).
  - destruct (crashdetect_ctor_returns amx w) as (c & m & Hctor & _).
    exists c, (set_instances (<[amx := c]> (instances_ w)) (set_machine m w)).
    split.
    { unfold GetInstance, bind, get. rewrite Hc0. unfold bind.
      by rewrite Hctor. }
    split; [simpl; apply lookup_insert_eq | done].
Qed.

(** X3.  [GetInstance] always returns an instance, and afterwards the
    registry maps the handle to that instance and every other handle as
    before.  An instance that was registered is returned as it is and
    the world is untouched; in particular a second [GetInstance] for the
    same handle returns the same instance and constructs nothing.  The
    call stack, the latch, the configuration and the log are never
    touched. *)
Theorem GetInstance_registers_once amx w :
  exists c w',
    GetInstance amx w = Returned c w' /\
    instances_ w' !! amx = Some c /\
    (forall other,
       other <> amx -> instances_ w' !! other = instances_ w !! other) /\
    (forall c0, instances_ w !! amx = Some c0 -> c = c0 /\ w' = w) /\
    GetInstance amx w' = Returned c w' /\
    npCalls_ w' = npCalls_ w /\ errorCaught_ w' = errorCaught_ w /\
    serverCfg w' = serverCfg w /\ output w' = output w.
Proof.
  destruct (instances_ w !! amx) as [c0 |] eqn:Hc0.
  - exists c0, w. rewrite (GetInstance_found _ _ _ Hc0).
    repeat split; try done; congruence.
  - destruct (crashdetect_ctor_returns amx w) as (c & m & Hctor & _).
    exists c, (set_instances (<[amx := c]> (instances_ w)) (set_machine m w)).
    assert (Hlookup : instances_ (set_instances (<[amx := c]> (instances_ w))
              (set_machine m w)) !! amx = Some c)
      by (simpl; apply lookup_insert_eq).
    split.
    { unfold GetInstance, bind, get. rewrite Hc0. unfold bind.
      by rewrite Hctor. }
    split; [exact Hlookup |].
    split; [intros other Hne; simpl; by apply lookup_insert_ne |].
    split; [intros c0 [=] |].
    split; [by apply GetInstance_found |]. done.
Qed.

(** X4.  [DestroyInstance] always returns; afterwards the handle is not
    registered and every other handle is registered as before.  For a
    handle that was not registered it changes nothing at all. *)
Theorem DestroyInstance_erases amx w :
  exists w',
    DestroyInstance amx w = Returned tt w' /\
    instances_ w' !! amx = None /\
    (forall other,
       other <> amx -> instances_ w' !! other = instances_ w !! other) /\
    (instances_ w !! amx = None -> w' = w).
Proof.
  unfold DestroyInstance, modify. eexists. split; [reflexivity |]. simpl.
  split; [apply lookup_delete_eq |]. split.
  - intros other Hne. by apply lookup_delete_ne.
  - intros Hnone. rewrite delete_id by done. apply set_instances_same.
Qed.

(** X5.  Creating the instance of a handle that was not registered and
    destroying it again leaves the registry as it was; and both
    operations keep every instance registered under its own machine. *)
Theorem GetInstance_DestroyInstance_round_trip amx w :
  (instances_ w !! amx = None ->
   instances_
     (world_of (bind (GetInstance amx) (fun _ => DestroyInstance amx) w)) =
   instances_ w) /\
  (registry_keyed w ->
   registry_keyed (world_of (GetInstance amx w)) /\
   registry_keyed (world_of (DestroyInstance amx w))).
Proof.
  split.
  - intros Hnone.
    destruct (crashdetect_ctor_returns amx w) as (c & m & Hctor & _).
    unfold GetInstance, DestroyInstance, bind, get, modify, ret.
    rewrite Hnone. unfold bind. rewrite Hctor. simpl.
    by apply delete_insert_id.
  - intros Hkeyed. split.
    + destruct (instances_ w !! amx) as [c0 |] eqn:Hc0.
      * by rewrite (GetInstance_found _ _ _ Hc0).
      * destruct (crashdetect_ctor_returns amx w) as (c & m & Hctor & Hamx).
        unfold GetInstance, bind, get, modify, ret.
        rewrite Hc0. unfold bind. rewrite Hctor. simpl.
        intros a c1. simpl. rewrite lookup_insert.
        destruct (decide (amx = a)) as [<- | Hne].
        -- by intros [= <-].
        -- apply Hkeyed.
    + unfold DestroyInstance, modify. simpl. intros a c1. simpl.
      rewrite lookup_delete. destruct (decide (amx = a)); [done |].
      apply Hkeyed.
Qed.

End Registry.

(** ** The two backtrace printers *)

Lemma numbered_nil level : numbered level [].
Proof. reflexivity. Qed.

Lemma numbered_app level evs1 evs2 :
  numbered level evs1 ->
  numbered (level + Z.of_nat (length evs1)) evs2 ->
  numbered level (evs1 ++ evs2).
Proof.
  unfold numbered. intros H1 H2.
  rewrite fmap_app, H1, H2, length_app, Nat2Z.inj_add.
  rewrite seqZ_app by lia. by rewrite fmap_app.
Qed.

Lemma numbered_one level format args :
  numbered level [Vlogprintf format (ArgInt level :: args)].
Proof. reflexivity. Qed.

Section Printers.
Context `{env : Env}.

Lemma print_native_frames_lines frames level w :
  exists w',
    print_native_frames frames level w = Returned tt w' /\
    output w' = output w ++
      imap (fun i frame =>
        let module := GetModulePathFromAddr (native_RetAddr frame) in
        Vlogprintf "[debug] #%d %s%s"
          [ArgInt (level + Z.of_nat i); ArgStr (StackFrame_AsString frame);
           ArgStr (if empty module then EmptyString
                   else " from " +:+ module)]) frames.
Proof.
  revert level w. induction frames as [| frame frames IH]; intros level w.
  - exists w. simpl. by rewrite app_nil_r.
  - simpl. unfold bind, logprintf, modify.
    destruct (IH (level + 1) (emit (Vlogprintf ("[debug] " +:+ "#%d %s%s")
               [ArgInt level; ArgStr (StackFrame_AsString frame);
                ArgStr (if empty (GetModulePathFromAddr (native_RetAddr frame))
                        then EmptyString
                        else " from " +:+
                             GetModulePathFromAddr (native_RetAddr frame))])
               w)) as (w' & -> & Hout).
    exists w'. split; [reflexivity |]. rewrite Hout. simpl.
    rewrite <- app_assoc. simpl. rewrite Z.add_0_r. do 2 f_equal.
    apply imap_ext. intros i frame' _. simpl.
    by replace (level + 1 + Z.of_nat i) with (level + Z.of_nat (S i)) by lia.
Qed.

Lemma PrintSystemBacktrace_spec context w :
  exists w',
    PrintSystemBacktrace context w = Returned tt w' /\
    output w' = output w ++ system_backtrace_lines context /\
    instances_ w' = instances_ w.
Proof.
  unfold PrintSystemBacktrace, bind, logprintf, modify. cbv zeta.
  destruct (print_native_frames_lines (StackTrace_GetFrames context) 0
    (emit (Vlogprintf ("[debug] " +:+ "System backtrace:") []) w))
    as (w' & Hrun & Hout).
  exists w'. split; [exact Hrun |]. split.
  - rewrite Hout. simpl. rewrite <- app_assoc. reflexivity.
  - pose proof (respects_print_native_frames (same instances_)
      (fun e w _ => eq_refl) (StackTrace_GetFrames context) 0
      (emit (Vlogprintf ("[debug] " +:+ "System backtrace:") []) w)) as Hsame.
    by rewrite Hrun in Hsame.
Qed.

(** X6.  [PrintSystemBacktrace] always returns, and what it adds to the
    log is the line "System backtrace:" followed by one line for each
    frame of the native stack, in the order of the frames and numbered
    0, 1, 2, ...; a frame whose module is not known carries no " from "
    part.  Nothing else of the world changes. *)
Theorem PrintSystemBacktrace_lines context w :
  exists w',
    PrintSystemBacktrace context w = Returned tt w' /\
    output w' = output w ++
      Vlogprintf "[debug] System backtrace:" [] ::
      imap (fun i frame =>
        let module := GetModulePathFromAddr (native_RetAddr frame) in
        Vlogprintf "[debug] #%d %s%s"
          [ArgInt (Z.of_nat i); ArgStr (StackFrame_AsString frame);
           ArgStr (if empty module then EmptyString
                   else " from " +:+ module)])
        (StackTrace_GetFrames context) /\
    npCalls_ w' = npCalls_ w /\ errorCaught_ w' = errorCaught_ w /\
    instances_ w' = instances_ w /\ machine w' = machine w.
Proof.
  destruct (PrintSystemBacktrace_spec context w) as (w' & Hrun & Hout & Hinst).
  exists w'. split; [exact Hrun |]. split; [exact Hout |].
  pose proof (respects_PrintSystemBacktrace (same npCalls_)
    (fun e w _ => eq_refl) context w) as H1.
  pose proof (respects_PrintSystemBacktrace (same errorCaught_)
    (fun e w _ => eq_refl) context w) as H2.
  pose proof (respects_PrintSystemBacktrace (same machine)
    (fun e w _ => eq_refl) context w) as H4.
  rewrite Hrun in H1, H2, H4. done.
Qed.

(** *** The frames of one entrypoint record *)

(** X7.  The loop that collects the frames of a walk keeps exactly the
    longest run of frames, from the first one on, that convert to true:
    what it returns is a prefix of the walk, every frame in it converts
    to true, and the frame that follows the prefix, if there is one,
    converts to false. *)
Theorem collect_frames_longest_valid_prefix frame rest :
  exists dropped,
    frame :: rest = collect_frames frame rest ++ dropped /\
    Forall (fun f => AMXStackFrame_bool f = true) (collect_frames frame rest) /\
    (forall next, head dropped = Some next -> AMXStackFrame_bool next = false).
Proof.
  revert frame. induction rest as [| next rest IH]; intros frame; simpl.
  - destruct (AMXStackFrame_bool frame) eqn:Hvalid.
    + exists []. split; [done |]. split; [by constructor | done].
    + exists [frame]. split; [done |]. split; [constructor |].
      by intros f [= <-].
  - destruct (AMXStackFrame_bool frame) eqn:Hvalid.
    + destruct (IH next) as (dropped & Heq & Hall & Hnext).
      exists dropped. split; [by rewrite Heq at 1 |].
      split; [by constructor | exact Hnext].
    + exists (frame :: next :: rest). split; [done |].
      split; [constructor |]. by intros f [= <-].
Qed.

Lemma set_back_length frames f : length (set_back frames f) = length frames.
Proof.
  induction frames as [| a [| b frames] IH]; simpl in *; try done.
  by rewrite IH.
Qed.

Lemma set_back_snoc frames bottom f :
  set_back (frames ++ [bottom]) f = frames ++ [f bottom].
Proof.
  induction frames as [| a frames IH]; [done |].
  simpl. rewrite IH. by destruct frames.
Qed.

Lemma public_frames_length m call frm debugInfo frames :
  length (public_frames m call frm debugInfo frames) =
  Nat.max 1 (length frames).
Proof.
  unfold public_frames. destruct frames as [| f frames]; [done |].
  destruct (negb (IsLoaded debugInfo)); [| simpl; lia].
  rewrite set_back_length. simpl. lia.
Qed.

(** X8.  The frames printed for an entrypoint record are never none: an
    empty walk gives one frame, a walk with frames gives as many frames
    as it has.  When no debug information is loaded, the last (outermost)
    frame printed is at the address of the record's entrypoint, with the
    frame and return addresses the walk found, and the frames before it
    are the walk's, unchanged; with debug information loaded a walk with
    frames is printed as it is. *)
Theorem public_frames_shape m call frm debugInfo frames :
  length (public_frames m call frm debugInfo frames) =
    Nat.max 1 (length frames) /\
  (IsLoaded debugInfo = true -> frames <> [] ->
   public_frames m call frm debugInfo frames = frames) /\
  (IsLoaded debugInfo = false ->
   forall inner bottom, frames = inner ++ [bottom] ->
     public_frames m call frm debugInfo frames =
     inner ++
     [ {| frame_amx := NPCall.amx call;
          GetFrameAddr := GetFrameAddr bottom;
          GetRetAddr := GetRetAddr bottom;
          GetFunAddr :=
            GetPublicAddr m (NPCall.amx call) (NPCall.index call);
          frame_debugInfo := debugInfo |} ]).
Proof.
  split; [| split].
  - apply public_frames_length.
  - intros Hloaded Hne. unfold public_frames.
    destruct frames; [done |]. by rewrite Hloaded.
  - intros Hloaded inner bottom ->. unfold public_frames.
    destruct (inner ++ [bottom]) eqn:Heq; [by destruct inner |].
    rewrite <- Heq, Hloaded. simpl. apply set_back_snoc.
Qed.

End Printers.

(** ** Numbering and failure of the AMX backtrace *)
Section Stitcher.
Context `{env : Env}.

Lemma print_frames_spec amxName debugInfo frames level w :
  exists w' evs,
    print_frames amxName debugInfo frames level w =
      Returned (level + Z.of_nat (length frames)) w' /\
    output w' = output w ++ evs /\ length evs = length frames /\
    numbered level evs /\ instances_ w' = instances_ w.
Proof.
  revert level w. induction frames as [| frame frames IH]; intros level w.
  - exists w, []. simpl. rewrite Z.add_0_r, app_nil_r. done.
  - simpl. unfold bind, get, logprintf, modify.
    match goal with
    | |- context [print_frames _ _ _ _ (emit ?line w)] =>
      destruct (IH (level + 1) (emit line w))
        as (w' & evs & -> & Hout & Hlen & Hnum & Hinst);
      exists w', (line :: evs)
    end.
    split; [f_equal; lia |]. split; [rewrite Hout; simpl; by rewrite <- app_assoc |].
    split; [simpl; by rewrite Hlen |]. split; [| exact Hinst].
    apply (numbered_app level [_] evs); [apply numbered_one | exact Hnum].
Qed.

Lemma trace_native_spec call level w :
  exists w' evs,
    trace_native call level w =
      Returned (level + Z.of_nat (length evs)) w' /\
    output w' = output w ++ evs /\ numbered level evs /\
    instances_ w' = instances_ w.
Proof.
  unfold trace_native, bind, get, logprintf, modify, ret.
  destruct (negb _).
  - destruct (GetNativeName _ _ _) as [name |].
    + eexists _, [_]. split; [reflexivity |]. split; [reflexivity |].
      split; [apply numbered_one | reflexivity].
    + exists w, []. rewrite Z.add_0_r, app_nil_r. done.
  - exists w, []. rewrite Z.add_0_r, app_nil_r. done.
Qed.

Lemma trace_public_spec call frm cip level w :
  match trace_public call frm cip level w with
  | Returned level' w' =>
    exists evs,
      output w' = output w ++ evs /\ numbered level evs /\
      level' = level + Z.of_nat (length evs) /\ evs <> [] /\
      instances_ w' = instances_ w
  | Stopped how w' =>
    how = NullDeref /\ instances_ w !! NPCall.amx call = None /\ w' = w
  end.
Proof.
  unfold trace_public, instance_at, bind, get, on_machine, stop. simpl.
  destruct (instances_ w !! NPCall.amx call) as [instance |] eqn:Hinst;
    [| done].
  simpl.
  destruct (AMXStackTrace _ _ _ _) as [frame rest].
  destruct (PopStack _ _) as [frm1 m3]. simpl.
  destruct (PopStack _ m3) as [cip1 m4]. simpl. rewrite Hinst. simpl.
  match goal with
  | |- context [print_frames ?n ?d ?fs level ?w1] =>
    destruct (print_frames_spec n d fs level w1)
      as (w' & evs & -> & Hout & Hlen & Hnum & Hsame);
    pose proof (public_frames_length m4 call frm1 d
      (collect_frames frame rest)) as Hshape
  end.
  exists evs. split; [exact Hout |]. split; [exact Hnum |].
  split; [by rewrite Hlen |]. split; [| exact Hsame].
  intros ->. simpl in Hlen. lia.
Qed.

(** What the loop over the records has done when it ends: the lines it
    wrote are numbered on from [level]; it has not touched the registry;
    and it stops the process only by dereferencing the missing instance
    of the machine it traces, or by the assertion, in a build that has
    assertions, before any line was numbered. *)
Lemma trace_calls_spec topAmx npCalls frm cip level w :
  0 <= level ->
  exists evs,
    output (world_of (trace_calls topAmx npCalls frm cip level w)) =
      output w ++ evs /\
    numbered level evs /\
    instances_ (world_of (trace_calls topAmx npCalls frm cip level w)) =
      instances_ w /\
    forall how w',
      trace_calls topAmx npCalls frm cip level w = Stopped how w' ->
      how = NullDeref /\ instances_ w !! topAmx = None \/
      how = AssertFailed /\ NDEBUG = false /\ level = 0 /\ evs = [].
Proof.
  revert frm cip level w.
  induction npCalls as [| call npCalls IH]; intros frm cip level w Hlevel.
  { exists []. simpl. rewrite app_nil_r. done. }
  simpl. destruct (cip =? 0).
  { exists []. simpl. rewrite app_nil_r. done. }
  destruct (Z.eqb_spec (NPCall.amx call) topAmx) as [Hamx | Hforeign]; simpl.
  2: { exists []. rewrite app_nil_r.
       destruct NDEBUG eqn:Hndebug; simpl; [done |].
       destruct (Z.eqb_spec level 0) as [-> | Hpos]; simpl; [| done].
       repeat split; try done. intros how w' [= <- <-]. by right. }
  destruct (NPCall.IsNative call).
  - unfold bind.
    destruct (trace_native_spec call level w)
      as (w1 & evs1 & -> & Hout1 & Hnum1 & Hinst1).
    destruct (IH frm cip (level + Z.of_nat (length evs1)) w1)
      as (evs2 & Hout2 & Hnum2 & Hinst2 & Hstop); [lia |].
    exists (evs1 ++ evs2).
    split; [by rewrite Hout2, Hout1, app_assoc |].
    split; [by apply numbered_app |].
    split; [by rewrite Hinst2 |].
    intros how w' Hrun. apply Hstop in Hrun as [[-> Hnone] | (-> & Hn & Hl & ->)].
    + left. by rewrite <- Hinst1.
    + right. destruct evs1; [| simpl in Hl; lia].
      simpl in Hl. repeat split; try done. lia.
  - destruct (NPCall.IsPublic call).
    + unfold bind.
      pose proof (trace_public_spec call frm cip level w) as Hturn.
      destruct (trace_public call frm cip level w) as [level1 w1 | how1 w1].
      * destruct Hturn as (evs1 & Hout1 & Hnum1 & -> & Hne & Hinst1).
        destruct (IH (NPCall.frm call) (NPCall.cip call)
                    (level + Z.of_nat (length evs1)) w1)
          as (evs2 & Hout2 & Hnum2 & Hinst2 & Hstop); [lia |].
        exists (evs1 ++ evs2).
        split; [by rewrite Hout2, Hout1, app_assoc |].
        split; [by apply numbered_app |].
        split; [by rewrite Hinst2 |].
        intros how w' Hrun.
        apply Hstop in Hrun as [[-> Hnone] | (-> & Hn & Hl & ->)].
        -- left. by rewrite <- Hinst1.
        -- destruct evs1; [done | simpl in Hl; lia].
      * destruct Hturn as (-> & Hnone & ->). exists []. simpl.
        rewrite app_nil_r. repeat split; try done.
        intros how w' [= <- <-]. left. by rewrite <- Hamx.
    + by apply IH.
Qed.

(** X9.  Whatever [PrintAmxBacktrace] adds to the log is either nothing,
    or the header "AMX backtrace:" followed by frame lines that are
    numbered 0, 1, 2, ... without a gap, across native and entrypoint
    records alike; this holds also for what is in the log when the
    printer stops the process. *)
Theorem PrintAmxBacktrace_numbers_from_zero w :
  exists evs,
    output (world_of (PrintAmxBacktrace w)) = output w ++ evs /\
    (evs = [] \/
     exists lines, evs = header :: lines /\
       line_level <$> lines = Some <$> seqZ 0 (Z.of_nat (length lines))).
Proof.
  unfold PrintAmxBacktrace, bind, get.
  destruct (npCalls_ w) as [| top rest] eqn:Hstack.
  { exists []. simpl. rewrite app_nil_r. by split; [| left]. }
  destruct (_ =? 0).
  { exists []. simpl. rewrite app_nil_r. by split; [| left]. }
  unfold logprintf, modify. simpl.
  match goal with
  | |- context [trace_calls ?a ?l ?f ?c 0 ?w1] =>
    destruct (trace_calls_spec a l f c 0 w1) as (lines & Hout & Hnum & _);
      [lia |]
  end.
  exists (header :: lines). split.
  - rewrite Hout. simpl. by rewrite <- app_assoc.
  - right. by exists lines.
Qed.

(** The same by the instruction pointer of the machine of the topmost
    record: nothing if it is 0, the header and the numbered lines
    otherwise. *)
Lemma PrintAmxBacktrace_shape w top rest :
  npCalls_ w = top :: rest ->
  exists evs,
    output (world_of (PrintAmxBacktrace w)) = output w ++ evs /\
    (cip (amxs (machine w) (NPCall.amx top)) = 0 /\ evs = [] \/
     cip (amxs (machine w) (NPCall.amx top)) <> 0 /\
     exists lines, evs = header :: lines /\ numbered 0 lines).
Proof.
  intros Hstack. unfold PrintAmxBacktrace, bind, get. rewrite Hstack.
  destruct (Z.eqb_spec (cip (amxs (machine w) (NPCall.amx top))) 0)
    as [Hcip | Hcip].
  { exists []. simpl. rewrite app_nil_r. split; [done |]. by left. }
  unfold logprintf, modify. simpl.
  match goal with
  | |- context [trace_calls ?a ?l ?f ?c 0 ?w1] =>
    destruct (trace_calls_spec a l f c 0 w1) as (lines & Hout & Hnum & _);
      [lia |]
  end.
  exists (header :: lines). split.
  - rewrite Hout. simpl. by rewrite <- app_assoc.
  - right. split; [exact Hcip |]. by exists lines.
Qed.

Lemma PrintAmxBacktrace_stop_cases w how w' :
  PrintAmxBacktrace w = Stopped how w' ->
  exists top rest,
    npCalls_ w = top :: rest /\
    (how = NullDeref /\ instances_ w !! NPCall.amx top = None \/
     how = AssertFailed /\ NDEBUG = false /\
     NPCall.IsNative top = true /\
     output w' = output w ++ [header]).
Proof.
  unfold PrintAmxBacktrace, bind, get.
  destruct (npCalls_ w) as [| top rest] eqn:Hstack; [done |].
  destruct (_ =? 0) eqn:Hcip; [done |].
  unfold logprintf, modify. simpl. intros Hrun.
  exists top, rest. split; [done |].
  match type of Hrun with
  | trace_calls ?a ?l ?f ?c 0 ?w1 = _ =>
    destruct (trace_calls_spec a l f c 0 w1) as (lines & Hout & _ & _ & Hstop);
      [lia |];
    pose proof Hrun as Hrun'; apply Hstop in Hrun' as [[-> Hnone] | (-> & Hn & _ & ->)]
  end.
  - by left.
  - right. rewrite Hrun in Hout. simpl in Hout. rewrite app_nil_r in Hout.
    repeat split; try done.
    destruct (NPCall.IsNative top) eqn:Hnative; [done |]. exfalso.
    (* an entrypoint record on top writes a line or dereferences *)
    revert Hrun. rewrite Hstack. simpl. rewrite Hcip, Z.eqb_refl. simpl.
    rewrite Hnative.
    assert (Hpublic : NPCall.IsPublic top = true).
    { revert Hnative. unfold NPCall.IsNative, NPCall.IsPublic.
      by destruct (NPCall.type_ top). }
    rewrite Hpublic. unfold bind.
    match goal with
    | |- context [trace_public top ?f ?c 0 ?w1] =>
      pose proof (trace_public_spec top f c 0 w1) as Hturn;
      destruct (trace_public top f c 0 w1) as [level1 w2 | how1 w2]
    end.
    + destruct Hturn as (evs1 & Hout1 & _ & -> & Hne & _).
      intros Hrun.
      match type of Hrun with
      | trace_calls ?a ?l ?f ?c ?lv ?w3 = _ =>
        destruct (trace_calls_spec a l f c lv w3)
          as (evs2 & _ & _ & _ & Hstop2); [lia |];
        apply Hstop2 in Hrun;
        destruct Hrun as [[Hnull _] | (_ & _ & Hl & Hnil)];
          [discriminate Hnull |]
      end.
      destruct evs1; [done | simpl in Hl; lia].
    + destruct Hturn as (-> & _ & _). done.
Qed.

(** X10.  [PrintAmxBacktrace] never exits the process.  It stops it in
    two cases only: the instance of the machine of the topmost record is
    not in the registry (a null dereference), or, in a build with
    assertions, the assertion fails and then no frame line has been
    written.  If the topmost record is an entrypoint record of a
    registered instance, it returns. *)
Theorem PrintAmxBacktrace_stops_only w how w' :
  PrintAmxBacktrace w = Stopped how w' ->
  exists top rest,
    npCalls_ w = top :: rest /\
    (how = NullDeref /\ instances_ w !! NPCall.amx top = None \/
     how = AssertFailed /\ NDEBUG = false /\
     NPCall.IsNative top = true /\
     output w' = output w ++ [header]).
Proof. apply PrintAmxBacktrace_stop_cases. Qed.

End Stitcher.

Section Entrypoint.
Context `{env : Env}.

(** C7.  The stitcher at an entrypoint Call Record of a registered
    instance, with [frm0] and [cip0] the loop's frame and instruction
    pointers, [cip0] not 0, and [level] the next frame number.  If the
    walk of the machine's frames, started after the return address and
    the frame pointer were pushed, yields no frame, then

    - the list of frames to print is exactly one frame, whose function
      address is the address of the record's entrypoint ([GetPublicAddr]
      at the record's index) and whose frame address is the frame
      pointer that was popped;
    - the loop writes the line of that frame at [level], and goes on with
      the records below at [level + 1], from the pointers the record has
      captured;
    - so what the loop adds to the log is that line, followed by lines
      numbered on from [level + 1];
    - and if the record is the innermost one of the call stack, so that
      the loop starts at it with the machine's registers and level 0,
      what [PrintAmxBacktrace] adds to the log is the header, the line of
      the entrypoint as frame 0, and lines numbered on from 1. *)
Theorem empty_walk_reports_entrypoint call rest frm0 cip0 level w instance :
  let amx := NPCall.amx call in
  let debugInfo := debugInfo_ instance in
  let pushed := PushStack amx frm0 (PushStack amx cip0 (machine w)) in
  let walk := AMXStackTrace pushed amx (stk (amxs pushed amx)) debugInfo in
  let popped := PopStack amx (PopStack amx pushed).2 in
  let entry :=
    {| frame_amx := amx; GetFrameAddr := (PopStack amx pushed).1;
       GetRetAddr := 0;
       GetFunAddr := GetPublicAddr popped.2 amx (NPCall.index call);
       frame_debugInfo := debugInfo |} in
  let from :=
    if empty (amxName_ instance) || IsLoaded debugInfo then EmptyString
    else " from " +:+ amxName_ instance in
  let line :=
    Vlogprintf "[debug] #%d %s%s"
      [ArgInt level; ArgStr (AMXStackFrame_AsString popped.2 entry);
       ArgStr from] in
  cip0 <> 0 ->
  NPCall.IsPublic call = true ->
  instances_ w !! amx = Some instance ->
  0 <= level ->
  collect_frames walk.1 walk.2 = [] ->
  public_frames popped.2 call (PopStack amx pushed).1 debugInfo
    (collect_frames walk.1 walk.2) = [entry] /\
  trace_calls amx (call :: rest) frm0 cip0 level w =
    trace_calls amx rest (NPCall.frm call) (NPCall.cip call) (level + 1)
      (emit line (set_machine popped.2 w)) /\
  (exists evs,
     output (world_of (trace_calls amx (call :: rest) frm0 cip0 level w)) =
       output w ++ line :: evs /\
     numbered (level + 1) evs) /\
  (npCalls_ w = call :: rest ->
   frm0 = frm (amxs (machine w) amx) ->
   cip0 = cip (amxs (machine w) amx) ->
   level = 0 ->
   exists evs,
     output (world_of (PrintAmxBacktrace w)) =
       output w ++ header :: line :: evs /\
     numbered 1 evs).
Proof.
  intros amx debugInfo pushed walk popped entry from line Hcip Hpublic
    Hinst Hlevel Hwalk.
  split; [by rewrite Hwalk |].
  pose proof (trace_calls_empty_walk call rest frm0 cip0 level w instance
                Hcip Hpublic Hinst Hwalk) as Hstep.
  cbv zeta in Hstep. fold amx debugInfo pushed popped entry from line in Hstep.
  split; [exact Hstep |].
  split.
  - rewrite Hstep.
    destruct (trace_calls_spec amx rest (NPCall.frm call) (NPCall.cip call)
                (level + 1) (emit line (set_machine popped.2 w)))
      as (evs & Hout & Hnum & _); [lia |].
    exists evs. split; [| exact Hnum].
    rewrite Hout. simpl. by rewrite <- app_assoc.
  - intros Hstack Hfrm Hcip0 ->.
    unfold PrintAmxBacktrace, bind, get. rewrite Hstack. fold amx.
    rewrite <- Hfrm, <- Hcip0, (proj2 (Z.eqb_neq cip0 0) Hcip).
    unfold logprintf, modify. cbn [npCalls_ emit]. rewrite Hstack.
    pose proof (trace_calls_empty_walk call rest frm0 cip0 0
                  (emit header w) instance Hcip Hpublic Hinst Hwalk)
      as Hfirst.
    cbv zeta in Hfirst. cbn [machine emit] in Hfirst.
    fold amx debugInfo pushed popped entry from line in Hfirst.
    change (emit (Vlogprintf ("[debug] " +:+ "AMX backtrace:") []) w)
      with (emit header w).
    rewrite Hfirst.
    match goal with
    | |- context [trace_calls ?a ?l ?f ?c (0 + 1) ?w1] =>
      destruct (trace_calls_spec a l f c (0 + 1) w1)
        as (evs & Hout & Hnum & _); [lia |]
    end.
    exists evs. split; [| exact Hnum].
    rewrite Hout. simpl. by rewrite <- !app_assoc.
Qed.

End Entrypoint.

Section Loop.
Context `{env : Env}.

(** X11.  The loop over the records ends at the first record of another
    machine: the records beneath that one have no influence on what the
    loop does. *)
Theorem trace_calls_ends_at_foreign_record
    topAmx before foreign beneath beneath' frm cip level w :
  NPCall.amx foreign <> topAmx ->
  trace_calls topAmx (before ++ foreign :: beneath) frm cip level w =
  trace_calls topAmx (before ++ foreign :: beneath') frm cip level w.
Proof.
  intros Hforeign. revert frm cip level w.
  induction before as [| call before IH]; intros frm cip level w; simpl.
  - apply Z.eqb_neq in Hforeign. by rewrite Hforeign.
  - destruct (cip =? 0); [done |]. destruct (negb _); [done |].
    destruct (NPCall.IsNative call); [| destruct (NPCall.IsPublic call)].
    + unfold bind. destruct (trace_native call level w); [apply IH | done].
    + unfold bind. destruct (trace_public call frm cip level w);
        [apply IH | done].
    + apply IH.
Qed.

(** *** The natives that were not found *)

Lemma for_each_unresolved (natives : ptr) (a : AMX) (l : list Z) w :
  let body := fun i : Z =>
    bind (get (fun w => funcstub (machine w) natives i)) (fun stub =>
      let '(address, nameofs) := stub in
      if address =? 0 then
        bind (get (fun w => cstrings (machine w) (nameofs + base a)))
          (fun name => logprintf " %s" [ArgStr name])
      else ret tt) in
  exists w',
    for_each l body w = Returned tt w' /\
    machine w' = machine w /\
    output w' = output w ++
      ((fun i => Vlogprintf "[debug]  %s"
          [ArgStr (cstrings (machine w)
                     ((funcstub (machine w) natives i).2 + base a))]) <$>
       filter (fun i => (funcstub (machine w) natives i).1 = 0) l).
Proof.
  intros body. revert w. induction l as [| i l IH]; intros w.
  - exists w. simpl. rewrite app_nil_r. done.
  - simpl. unfold bind at 1. unfold body at 1. unfold bind, get.
    rewrite filter_cons.
    destruct (funcstub (machine w) natives i) as [address nameofs] eqn:Hstub.
    simpl. destruct (Z.eqb_spec address 0) as [-> | Hne].
    + unfold logprintf, modify.
      match goal with
      | |- context [for_each l body ?w1] =>
        destruct (IH w1) as (w' & -> & Hm & Hout)
      end.
      exists w'. simpl in Hm, Hout. split; [reflexivity |].
      split; [exact Hm |].
      rewrite Hout. rewrite decide_True by reflexivity.
      rewrite fmap_cons, Hstub. simpl. by rewrite <- app_assoc.
    + unfold ret. destruct (IH w) as (w' & -> & Hm & Hout).
      exists w'. split; [reflexivity |]. split; [exact Hm |].
      by rewrite decide_False.
Qed.

(** X12.  For the error "native function not found" the detail lines are
    exactly the names of the natives whose address in the table is still
    0, one line each, in the order of the table; natives that are bound
    are not listed, and the machines are left as they are.  (The
    enumerators of the two errors are different numbers.) *)
Theorem describe_error_lists_unresolved_natives this w :
  AMX_ERR_NOTFOUND <> AMX_ERR_BOUNDS ->
  let a := amxs (machine w) (amx_ this) in
  let table := base a + natives (headers (machine w) (amxhdr_ this)) in
  let numNatives := amx_NumNatives (machine w) (amx_ this) in
  exists w',
    describe_error this AMX_ERR_NOTFOUND w = Returned tt w' /\
    machine w' = machine w /\
    output w' = output w ++
      ((fun i => Vlogprintf "[debug]  %s"
          [ArgStr (cstrings (machine w)
                     ((funcstub (machine w) table i).2 + base a))]) <$>
       filter (fun i => (funcstub (machine w) table i).1 = 0)
         (seqZ 0 numNatives)).
Proof.
  intros Hdistinct a table numNatives.
  unfold describe_error. unfold bind at 1. unfold get at 1.
  unfold bind at 1. unfold get at 1.
  apply Z.eqb_neq in Hdistinct. rewrite Hdistinct, Z.eqb_refl.
  unfold bind at 1. unfold get at 1.
  apply (for_each_unresolved table a (seqZ 0 numNatives) w).
Qed.

(** *** The latch after a successful call *)

(** X13.  An entrypoint call that returns [AMX_ERR_NONE] always leaves
    the latch cleared, whatever happened inside [::amx_Exec] and whatever
    the latch was. *)
Theorem DoAmxExec_success_clears_latch this (amx_Exec : M Z) index w w' :
  DoAmxExec this amx_Exec index w = Returned AMX_ERR_NONE w' ->
  errorCaught_ w' = false.
Proof.
  unfold DoAmxExec, bind, get, push, pop, modify, ret, amx_Error. simpl.
  destruct (amx_Exec _) as [retcode w1 | how w1]; [| done].
  destruct (Z.eqb_spec retcode AMX_ERR_NONE) as [-> | Hfail]; simpl.
  - by intros [= <-].
  - destruct (errorCaught_ w1); simpl.
    + intros [= Hrc _]. done.
    + destruct (HandleExecError _ _ _ _) as [[] w2 | how w2]; [| done].
      intros [= Hrc _]. done.
Qed.

(** X14.  With the latch cleared, a failure that [::amx_Exec] returns
    without the classifier having run is reported: unless it is the
    benign sentinel pseudo-error, the first line the wrapper adds to the
    log is the "Run time error" line with the code and its description. *)
Theorem DoAmxExec_reports_with_latch_cleared this index retcode w :
  errorCaught_ w = false ->
  retcode <> AMX_ERR_NONE ->
  ~ (retcode = AMX_ERR_INDEX /\ index = AMX_EXEC_GDK) ->
  exists evs,
    output (world_of (DoAmxExec this (run (HReturn retcode)) index w)) =
    output w ++
      Vlogprintf ("[debug] Run time error %d: " +:+ dquote +:+ "%s" +:+ dquote)
        [ArgInt retcode; ArgStr (aux_StrError retcode)] :: evs.
Proof.
  intros Hlatch Hfail Hreal.
  rewrite (DoAmxExec_forwards_iff_latch_unset _ _ _ _ retcode _ eq_refl).
  simpl. rewrite Hlatch. apply Z.eqb_neq in Hfail. rewrite Hfail. simpl.
  match goal with
  | |- context [bind (amx_Error this index retcode) ?k ?w1] =>
    destruct (respects_after grows (amx_Error this index retcode) k w1)
      as [evs2 Hevs2]; [| rewrite Hevs2; set (w0 := w1)]
  end.
  { intros _. unfold pop.
    repeat first [ apply (respects_modify grows); intros ?; apply grows_stack
                 | respects_step ]. }
  unfold amx_Error. rewrite HandleExecError_report.
  2: { apply andb_false_iff.
       destruct (Z.eqb_spec retcode AMX_ERR_INDEX); [| by left].
       destruct (Z.eqb_spec index AMX_EXEC_GDK); [| by right].
       by destruct Hreal. }
  match goal with
  | |- context [bind (report this retcode) ?k ?w1] =>
    destruct (respects_after grows (report this retcode) k w1)
      as [evs3 Hevs3];
      [intros _; apply (respects_DieOrContinue grows);
       intros; apply grows_emit | rewrite Hevs3]
  end.
  unfold report. rewrite world_of_bind. unfold logprintf at 1, modify at 1.
  match goal with
  | |- context [world_of (?c (emit ?line ?w1))] =>
    assert (Hrest : grows (emit line w1) (world_of (c (emit line w1))))
  end.
  { match goal with
    | |- grows ?w1 (world_of (?c ?w1)) =>
      cut (respects grows c); [intros Hc; apply Hc |]
    end.
    assert (Hgrow : forall e w, e <> header -> grows w (emit e w))
      by (intros; apply grows_emit).
    repeat first
      [ apply (respects_describe_error grows Hgrow)
      | apply (respects_PrintAmxBacktrace grows grows_emit grows_machine)
      | apply (respects_system grows Hgrow) | respects_step ]. }
  destruct Hrest as [evs1 Hevs1]. rewrite Hevs1. subst w0. simpl.
  eexists. rewrite <- !app_assoc. simpl. reflexivity.
Qed.

End Loop.

(** ** What every hook upholds

    A relation between the world before, the way a computation ends and
    the world after passes from the single steps (a logged line, the
    configured command, a write to the machines, to the latch or to the
    call stack, and the three ways of stopping the process) to every
    hook and to everything the host does between its call and its
    return. *)
Section Upholds.
Context `{env : Env}.
Context (R : World -> option Stop -> World -> Prop).
Hypothesis R_refl : forall w, R w None w.
Hypothesis R_trans :
  forall w1 w2 w3 o, R w1 None w2 -> R w2 o w3 -> R w1 o w3.
Hypothesis R_log :
  forall format args w,
    R w None (emit (Vlogprintf ("[debug] " +:+ format) args) w).
Hypothesis R_system :
  forall w, empty (run_on_error w) = false ->
    R w None (emit (System (run_on_error w)) w).
Hypothesis R_machine : forall m w, R w None (set_machine m w).
Hypothesis R_latch : forall b w, R w None (set_errorCaught b w).
Hypothesis R_stack : forall s w, R w None (set_npCalls s w).
Hypothesis R_exit :
  forall w, die_on_error w = true ->
    R w (Some (Exit EXIT_FAILURE))
      (emit (Vlogprintf "[debug] Aborting..." []) w).
Hypothesis R_assert : forall w, NDEBUG = false -> R w (Some AssertFailed) w.
Hypothesis R_null :
  forall w amx, instances_ w !! amx = None -> R w (Some NullDeref) w.

Lemma upholds_ret {A} (a : A) : upholds R (ret a).
Proof. intros w. apply R_refl. Qed.

Lemma upholds_get {A} (f : World -> A) : upholds R (get f).
Proof. intros w. apply R_refl. Qed.

Lemma upholds_modify (f : World -> World) :
  (forall w, R w None (f w)) -> upholds R (modify f).
Proof. intros Hf w. apply Hf. Qed.

Lemma upholds_bind {A B} (c : M A) (k : A -> M B) :
  upholds R c -> (forall a, upholds R (k a)) -> upholds R (bind c k).
Proof.
  intros Hc Hk w. unfold bind. specialize (Hc w).
  destruct (c w) as [a w1 | how w1]; [| exact Hc].
  specialize (Hk a w1). destruct (k a w1); by apply (R_trans w w1).
Qed.

Lemma upholds_when (b : bool) (c : M unit) :
  upholds R c -> upholds R (when b c).
Proof. intros Hc. destruct b; [exact Hc | apply upholds_ret]. Qed.

Lemma upholds_for_each {A} (l : list A) (body : A -> M unit) :
  (forall x, upholds R (body x)) -> upholds R (for_each l body).
Proof.
  intros Hbody. induction l as [| x l IH]; simpl.
  - apply upholds_ret.
  - apply upholds_bind; [apply Hbody | intros _; exact IH].
Qed.

Lemma upholds_logprintf format args : upholds R (logprintf format args).
Proof. apply upholds_modify. intros w. apply R_log. Qed.

Lemma upholds_on_machine {A} (f : Machine -> A * Machine) :
  upholds R (on_machine f).
Proof.
  intros w. unfold on_machine. destruct (f (machine w)). apply R_machine.
Qed.

Lemma upholds_instance_at amx : upholds R (instance_at amx).
Proof.
  intros w. unfold instance_at, bind, get, ret, stop.
  destruct (instances_ w !! amx) eqn:Hlookup; [apply R_refl |].
  by apply (R_null w amx).
Qed.

Lemma upholds_DieOrContinue : upholds R DieOrContinue.
Proof.
  intros w. unfold DieOrContinue, bind, get, logprintf, modify, stop, ret.
  destruct (GetOption_bool _ _ _) eqn:Hdie; [| apply R_refl].
  by apply R_exit.
Qed.

Lemma upholds_run_command :
  upholds R
    (bind (get (fun w =>
             GetOption_string (serverCfg w) "run_on_error" EmptyString))
       (fun command => when (negb (empty command)) (system command))).
Proof.
  intros w. unfold bind, get, when, system, modify, ret.
  destruct (empty _) eqn:Hempty; simpl; [apply R_refl |].
  by apply R_system.
Qed.

Ltac upholds_step :=
  match goal with
  | |- upholds _ (bind _ _) => apply upholds_bind; [| intros ?]
  | |- upholds _ (ret _) => apply upholds_ret
  | |- upholds _ (get _) => apply upholds_get
  | |- upholds _ (when _ _) => apply upholds_when
  | |- upholds _ (logprintf _ _) => apply upholds_logprintf
  | |- upholds _ (on_machine _) => apply upholds_on_machine
  | |- upholds _ (instance_at _) => apply upholds_instance_at
  | |- upholds _ (for_each _ _) => apply upholds_for_each; intros ?
  | |- upholds _ (if ?b then _ else _) => destruct b eqn:?
  | |- upholds _ (match ?x with _ => _ end) => destruct x eqn:?
  end.

Lemma upholds_print_native_frames frames level :
  upholds R (print_native_frames frames level).
Proof.
  revert level. induction frames as [| frame frames IH]; intros level; simpl.
  - apply upholds_ret.
  - apply upholds_bind; [apply upholds_logprintf | intros _; apply IH].
Qed.

Lemma upholds_PrintSystemBacktrace context :
  upholds R (PrintSystemBacktrace context).
Proof.
  unfold PrintSystemBacktrace.
  apply upholds_bind; [apply upholds_logprintf | intros _].
  apply upholds_print_native_frames.
Qed.

Lemma upholds_HandleReleaseError this address releaser :
  upholds R (HandleReleaseError this address releaser).
Proof.
  unfold HandleReleaseError.
  do 2 (apply upholds_bind; [apply upholds_logprintf | intros _]).
  apply upholds_PrintSystemBacktrace.
Qed.

Lemma upholds_DoAmxRelease this amx_addr releaser :
  upholds R (DoAmxRelease this amx_addr releaser).
Proof.
  unfold DoAmxRelease.
  apply upholds_bind; [apply upholds_get | intros a].
  apply upholds_bind;
    [apply upholds_when, upholds_HandleReleaseError | intros _ w].
  destruct (amx_Release _ _ _). apply R_machine.
Qed.

Lemma upholds_describe_error this error :
  upholds R (describe_error this error).
Proof. unfold describe_error. repeat upholds_step. Qed.

Lemma upholds_print_frames amxName debugInfo frames level :
  upholds R (print_frames amxName debugInfo frames level).
Proof.
  revert level. induction frames as [| frame frames IH]; intros level; simpl.
  - apply upholds_ret.
  - repeat first [apply IH | upholds_step].
Qed.

Lemma upholds_trace_native call level : upholds R (trace_native call level).
Proof. unfold trace_native. repeat upholds_step. Qed.

Lemma upholds_trace_public call frm cip level :
  upholds R (trace_public call frm cip level).
Proof.
  unfold trace_public. repeat first [apply upholds_print_frames | upholds_step].
Qed.

Lemma upholds_trace_calls topAmx npCalls frm cip level :
  upholds R (trace_calls topAmx npCalls frm cip level).
Proof.
  revert frm cip level.
  induction npCalls as [| call npCalls IH]; intros frm cip level; simpl.
  - apply upholds_ret.
  - destruct (cip =? 0); [apply upholds_ret |].
    destruct (negb (NPCall.amx call =? topAmx)).
    + intros w. destruct NDEBUG eqn:Hndebug; simpl; [apply R_refl |].
      destruct (level =? 0); [| apply R_refl]. by apply R_assert.
    + repeat first
        [ apply IH | apply upholds_trace_native | apply upholds_trace_public
        | upholds_step ].
Qed.

Lemma upholds_PrintAmxBacktrace : upholds R PrintAmxBacktrace.
Proof.
  unfold PrintAmxBacktrace.
  repeat first [apply upholds_trace_calls | upholds_step].
Qed.

Lemma upholds_HandleExecError this index error :
  upholds R (HandleExecError this index error).
Proof.
  unfold HandleExecError.
  apply upholds_bind; [apply upholds_modify, R_latch | intros _].
  destruct (_ && _); [apply upholds_ret |].
  apply upholds_bind; [apply upholds_logprintf | intros _].
  apply upholds_bind; [apply upholds_describe_error | intros _].
  apply upholds_bind;
    [apply upholds_when, upholds_PrintAmxBacktrace | intros _].
  intros w. unfold bind at 1. unfold get at 1.
  pose proof (upholds_run_command w) as Hcmd. unfold bind, get in Hcmd.
  unfold bind at 1.
  destruct (when _ _ w) as [[] w1 | how w1]; [| exact Hcmd].
  pose proof (upholds_DieOrContinue w1) as Hdie.
  destruct (DieOrContinue w1); by apply (R_trans w w1).
Qed.

Lemma upholds_DoAmxCallback this prevCallback_ index :
  upholds R prevCallback_ ->
  upholds R (DoAmxCallback this prevCallback_ index).
Proof.
  intros Hprev. unfold DoAmxCallback, push, pop.
  repeat first
    [ exact Hprev | apply upholds_modify; intros ?; apply R_stack
    | upholds_step ].
Qed.

Lemma upholds_DoAmxExec this amx_Exec index :
  upholds R amx_Exec -> upholds R (DoAmxExec this amx_Exec index).
Proof.
  intros Hexec. unfold DoAmxExec, push, pop, amx_Error.
  repeat first
    [ exact Hexec | apply upholds_HandleExecError
    | apply upholds_modify; intros ?; first [apply R_stack | apply R_latch]
    | upholds_step ].
Qed.

Lemma upholds_run (h : Host) : upholds R (run h).
Proof.
  induction h as [retcode | f k IH | this index native IHn k IH
                 | this index vm IHv k IH | this index error k IH
                 | this amx_addr releaser k IH]; simpl.
  - apply upholds_ret.
  - apply upholds_bind; [apply upholds_on_machine | intros m; apply IH].
  - apply upholds_bind;
      [apply upholds_DoAmxCallback, IHn | intros rc; apply IH].
  - apply upholds_bind; [apply upholds_DoAmxExec, IHv | intros rc; apply IH].
  - apply upholds_bind;
      [apply upholds_HandleExecError | intros _; apply IH].
  - apply upholds_bind; [apply upholds_DoAmxRelease | intros rc; apply IH].
Qed.

End Upholds.

Section Hooks.
Context `{env : Env}.

(** X15.  Whatever the host does between a call and its return, through
    any nesting of the hooks, every line added to the log went through
    [crashdetect::logprintf] and so carries the marker "[debug] ", and
    the only command ever handed to [std::system] is the one configured
    as run_on_error, and never the empty command.  This holds as well
    for what is in the log when the process is stopped. *)
Theorem hooks_write_marked_lines_only (h : Host) w :
  exists evs,
    output (world_of (run h w)) = output w ++ evs /\
    Forall (marked (run_on_error w)) evs.
Proof.
  pose (R := fun (w : World) (_ : option Stop) (w' : World) =>
    serverCfg w' = serverCfg w /\
    exists evs, output w' = output w ++ evs /\
      Forall (marked (run_on_error w)) evs).
  assert (Hstay : forall (g : World -> World) (o : option Stop),
            (forall w, serverCfg (g w) = serverCfg w) ->
            (forall w, output (g w) = output w) -> forall w, R w o (g w)).
  { intros g o Hcfg Hout w0. split; [apply Hcfg |]. exists [].
    by rewrite Hout, app_nil_r. }
  assert (Hone : forall e (o : option Stop) w,
            marked (run_on_error w) e -> R w o (emit e w)).
  { intros e o w0 He. split; [done |]. exists [e]. split; [done |].
    by constructor. }
  assert (Hrun : upholds R (run h)).
  { apply upholds_run.
    - intros w0. by apply (Hstay id).
    - intros w1 w2 w3 o [Hcfg12 (evs1 & Hout1 & Hall1)]
        [Hcfg23 (evs2 & Hout2 & Hall2)].
      split; [congruence |]. exists (evs1 ++ evs2).
      split; [by rewrite Hout2, Hout1, app_assoc |].
      apply Forall_app. split; [exact Hall1 |].
      unfold run_on_error in *. by rewrite <- Hcfg12.
    - intros format args w0. apply Hone. by exists format.
    - intros w0 Hempty. apply Hone. split; [done |].
      intros Heq. rewrite Heq in Hempty. done.
    - intros m w0. by apply (Hstay (set_machine m)).
    - intros b w0. by apply (Hstay (set_errorCaught b)).
    - intros s w0. by apply (Hstay (set_npCalls s)).
    - intros w0 _. apply Hone. by exists "Aborting...".
    - intros w0 _. by apply (Hstay id).
    - intros w0 amx _. by apply (Hstay id). }
  specialize (Hrun w). destruct (run h w); simpl; apply Hrun.
Qed.

(** X16.  The ways in which the hooks can stop the process, whatever the
    host does: an exit happens only when die_on_error is set, its status
    is [EXIT_FAILURE], and the last line in the log is then
    "Aborting..."; an assertion fails only in a build that has
    assertions.  In particular, with die_on_error off no hook ever exits
    the process. *)
Theorem hooks_stop_only_as_configured (h : Host) w how w' :
  run h w = Stopped how w' ->
  match how with
  | Exit status =>
    status = EXIT_FAILURE /\ die_on_error w = true /\
    last (output w') = Some (Vlogprintf "[debug] Aborting..." [])
  | AssertFailed => NDEBUG = false
  | NullDeref => True
  end.
Proof.
  pose (R := fun (w : World) (o : option Stop) (w' : World) =>
    serverCfg w' = serverCfg w /\
    match o with
    | Some (Exit status) =>
      status = EXIT_FAILURE /\ die_on_error w = true /\
      last (output w') = Some (Vlogprintf "[debug] Aborting..." [])
    | Some AssertFailed => NDEBUG = false
    | _ => True
    end).
  assert (Hrun : upholds R (run h)).
  { apply upholds_run; try (by intros; split).
    - intros w1 w2 w3 o [Hcfg12 _] [Hcfg23 Ho].
      split; [congruence |]. destruct o as [[status | |] |]; try done.
      unfold die_on_error in *. by rewrite <- Hcfg12.
    - intros w0 Hdie. split; [done |]. split; [done |]. split; [done |].
      simpl. apply last_snoc. }
  intros Hstop. specialize (Hrun w). rewrite Hstop in Hrun.
  destruct Hrun as [_ Hhow]. by destruct how.
Qed.

End Hooks.

(** ** System exceptions and interrupts *)
Section Faults.
Context `{env : Env} `{loader : Loader}.

(** The common shape of [SystemException] and [SystemInterrupt]. *)
Lemma fault_without_call (idle : string) (handle : crashdetect -> M unit)
    context w :
  npCalls_ w = [] ->
  exists w',
    bind
      (bind (get npCalls_) (fun calls =>
         match calls with
         | top :: _ => bind (GetInstance (NPCall.amx top)) handle
         | [] => logprintf idle []
         end))
      (fun _ => PrintSystemBacktrace context) w = Returned tt w' /\
    output w' = output w ++
      Vlogprintf ("[debug] " +:+ idle) [] :: system_backtrace_lines context /\
    instances_ w' = instances_ w.
Proof.
  intros Hstack. unfold bind at 1. unfold bind at 1. unfold get at 1.
  rewrite Hstack. unfold logprintf, modify.
  match goal with
  | |- context [PrintSystemBacktrace context ?w1] =>
    destruct (PrintSystemBacktrace_spec context w1) as (w' & -> & Hout & Hinst)
  end.
  exists w'. split; [reflexivity |]. split; [| exact Hinst].
  rewrite Hout. simpl. by rewrite <- app_assoc.
Qed.

Lemma fault_with_call (running : string) (idle : M unit) context w top
    rest :
  npCalls_ w = top :: rest ->
  exists this w1 evs,
    let line :=
      Vlogprintf ("[debug] " +:+ running) [ArgStr (amxName_ this)] in
    GetInstance (NPCall.amx top) w = Returned this w1 /\
    output (world_of (PrintAmxBacktrace (emit line w1))) =
      output w ++ line :: evs /\
    (cip (amxs (machine w1) (NPCall.amx top)) = 0 /\ evs = [] \/
     cip (amxs (machine w1) (NPCall.amx top)) <> 0 /\
     exists lines, evs = header :: lines /\ numbered 0 lines) /\
    match
      bind
        (bind (get npCalls_) (fun calls =>
           match calls with
           | top :: _ =>
             bind (GetInstance (NPCall.amx top)) (fun this =>
               bind (logprintf running [ArgStr (amxName_ this)])
                 (fun _ => PrintAmxBacktrace))
           | [] => idle
           end))
        (fun _ => PrintSystemBacktrace context) w
    with
    | Returned _ w' =>
      instances_ w' !! NPCall.amx top = Some this /\
      output w' = output w ++ line :: evs ++ system_backtrace_lines context
    | Stopped how w' =>
      how = AssertFailed /\ NDEBUG = false /\ NPCall.IsNative top = true /\
      output w' = output w ++ [line; header]
    end.
Proof.
  intros Hstack. unfold bind at 1. unfold bind at 1. unfold get at 1.
  rewrite Hstack. unfold bind at 1.
  destruct (GetInstance_returns (NPCall.amx top) w)
    as (this & w1 & HGet & Hreg & Hstack1 & Hout1).
  rewrite HGet.
  unfold bind at 1. unfold logprintf, modify.
  set (line := Vlogprintf ("[debug] " +:+ running) [ArgStr (amxName_ this)]).
  set (w2 := emit line w1).
  assert (Hreg2 : instances_ w2 !! NPCall.amx top = Some this) by exact Hreg.
  assert (Hstack2 : npCalls_ w2 = top :: rest) by (simpl; congruence).
  destruct (PrintAmxBacktrace_shape w2 top rest Hstack2)
    as (evs & Hevs & Hshape).
  assert (Hlog : output (world_of (PrintAmxBacktrace w2)) =
            output w ++ line :: evs).
  { rewrite Hevs. subst w2. simpl. rewrite Hout1.
    by rewrite <- app_assoc. }
  pose proof (respects_PrintAmxBacktrace (same instances_)
    (fun _ _ => eq_refl) (fun _ _ => eq_refl) w2) as Hinst.
  exists this, w1, evs. cbv zeta. fold line. fold w2.
  split; [reflexivity |]. split; [exact Hlog |]. split; [exact Hshape |].
  destruct (PrintAmxBacktrace w2) as [[] w3 | how w3] eqn:Hprint.
  - destruct (PrintSystemBacktrace_spec context w3)
      as (w' & -> & Hout & Hinst').
    simpl in Hlog, Hinst. unfold same in Hinst.
    split; [by rewrite Hinst', Hinst |].
    rewrite Hout, Hlog. by rewrite <- !app_assoc.
  - apply PrintAmxBacktrace_stop_cases in Hprint
      as (top' & rest' & Hstack' & Hcase).
    rewrite Hstack2 in Hstack'. injection Hstack' as <- <-.
    destruct Hcase as [[_ Hnone] | (-> & Hn & Hnative & Hstop)].
    + rewrite Hreg2 in Hnone. done.
    + repeat split; try done.
      rewrite Hstop. subst w2. simpl. rewrite Hout1.
      by rewrite <- app_assoc.
Qed.

(** X17.  A system exception or interrupt while no call is in flight
    writes one line ("Server crashed due to an unknown error", or "Server
    received interrupt signal") and then the system backtrace, and
    returns; no instance is constructed for it. *)
Theorem system_fault_without_call context w :
  npCalls_ w = [] ->
  (exists w',
     SystemException context w = Returned tt w' /\
     output w' = output w ++
       Vlogprintf "[debug] Server crashed due to an unknown error" [] ::
       system_backtrace_lines context /\
     instances_ w' = instances_ w) /\
  (exists w',
     SystemInterrupt context w = Returned tt w' /\
     output w' = output w ++
       Vlogprintf "[debug] Server received interrupt signal" [] ::
       system_backtrace_lines context /\
     instances_ w' = instances_ w).
Proof.
  intros Hstack. split.
  - apply (fault_without_call "Server crashed due to an unknown error"
             HandleException context w Hstack).
  - apply (fault_without_call "Server received interrupt signal"
             HandleInterrupt context w Hstack).
Qed.

(** X18.  A system exception or interrupt while a call is in flight never
    exits the process and never dereferences a missing instance: the
    instance of the machine of the topmost record is looked up, or
    constructed and registered, first.  The handler writes the line that
    names the script and then runs [PrintAmxBacktrace]: what the log
    gains after that line is what the printer adds to it, which is
    nothing if the instruction pointer of that machine is 0 and otherwise
    the header "AMX backtrace:" and lines numbered from 0.  When the
    handler returns, the log ends, always, with the system backtrace.
    The handler stops the process only if the assertion of the AMX
    backtrace fails, which needs a build with assertions and a native
    record on top; the log then ends with the header. *)
Theorem system_fault_with_call context w top rest :
  npCalls_ w = top :: rest ->
  (exists this w1 evs,
     let line :=
       Vlogprintf "[debug] Server crashed while executing %s"
         [ArgStr (amxName_ this)] in
     GetInstance (NPCall.amx top) w = Returned this w1 /\
     output (world_of (PrintAmxBacktrace (emit line w1))) =
       output w ++ line :: evs /\
     (cip (amxs (machine w1) (NPCall.amx top)) = 0 /\ evs = [] \/
      cip (amxs (machine w1) (NPCall.amx top)) <> 0 /\
      exists lines, evs = header :: lines /\ numbered 0 lines) /\
     match SystemException context w with
     | Returned _ w' =>
       instances_ w' !! NPCall.amx top = Some this /\
       output w' =
         output w ++ line :: evs ++ system_backtrace_lines context
     | Stopped how w' =>
       how = AssertFailed /\ NDEBUG = false /\
       NPCall.IsNative top = true /\
       output w' = output w ++ [line; header]
     end) /\
  (exists this w1 evs,
     let line :=
       Vlogprintf
         "[debug] Server received interrupt signal while executing %s"
         [ArgStr (amxName_ this)] in
     GetInstance (NPCall.amx top) w = Returned this w1 /\
     output (world_of (PrintAmxBacktrace (emit line w1))) =
       output w ++ line :: evs /\
     (cip (amxs (machine w1) (NPCall.amx top)) = 0 /\ evs = [] \/
      cip (amxs (machine w1) (NPCall.amx top)) <> 0 /\
      exists lines, evs = header :: lines /\ numbered 0 lines) /\
     match SystemInterrupt context w with
     | Returned _ w' =>
       instances_ w' !! NPCall.amx top = Some this /\
       output w' =
         output w ++ line :: evs ++ system_backtrace_lines context
     | Stopped how w' =>
       how = AssertFailed /\ NDEBUG = false /\
       NPCall.IsNative top = true /\
       output w' = output w ++ [line; header]
     end).
Proof.
  intros Hstack. split.
  - apply (fault_with_call "Server crashed while executing %s" (logprintf "Server crashed due to an unknown error" [])
             context w top rest Hstack).
  - apply (fault_with_call
             "Server received interrupt signal while executing %s" (logprintf "Server received interrupt signal" [])
             context w top rest Hstack).
Qed.

End Faults.

(** ** The further properties on the concrete build *)
Section ConcreteFurther.
Local Existing Instance pawn_env.
Local Existing Instance pawn_loader.

(** AMX_PATH is "/srv/pawn::scripts:": two paths are added, the empty
    field between the doubled separators and the one after the last
    separator are not. *)
Lemma search_paths_on_pawn_loader :
  search_paths = ["gamemodes"; "filterscripts"; "/srv/pawn"; "scripts"].
Proof.
  rewrite search_paths_are_the_fields_of_AMX_PATH. vm_compute. reflexivity.
Defined.

(** Handle 2 is not registered in [world0]. *)
Lemma GetInstance_DestroyInstance_on_world0 :
  instances_ world0 !! 2 = None /\
  instances_
    (world_of (bind (GetInstance 2) (fun _ => DestroyInstance 2) world0)) =
  instances_ world0 /\
  registry_keyed (world_of (GetInstance 2 world0)) /\
  registry_keyed (world_of (DestroyInstance 1 world0)).
Proof.
  assert (Hfresh : instances_ world0 !! 2 = None)
    by (vm_compute; reflexivity).
  assert (Hkeyed : registry_keyed world0).
  { intros amx c. simpl. rewrite lookup_singleton_Some. by intros [<- <-]. }
  split; [exact Hfresh |].
  split; [exact (proj1 (GetInstance_DestroyInstance_round_trip 2 world0)
                   Hfresh) |].
  split.
  - exact (proj1 (proj2 (GetInstance_DestroyInstance_round_trip 2 world0)
                    Hkeyed)).
  - exact (proj2 (proj2 (GetInstance_DestroyInstance_round_trip 1 world0)
                    Hkeyed)).
Defined.

(** Two frames and no debug information: the outer one is moved to the
    entrypoint of [call0]. *)
Lemma public_frames_on_two_frames :
  let dbg := {| IsLoaded := false |} in
  let f1 := {| frame_amx := 1; GetFrameAddr := 200; GetRetAddr := 64;
               GetFunAddr := 48; frame_debugInfo := dbg |} in
  let f2 := {| frame_amx := 1; GetFrameAddr := 220; GetRetAddr := 24;
               GetFunAddr := 0; frame_debugInfo := dbg |} in
  public_frames machine0 call0 220 dbg [f1; f2] =
  [f1; {| frame_amx := 1; GetFrameAddr := 220; GetRetAddr := 24;
          GetFunAddr := 32; frame_debugInfo := dbg |}].
Proof.
  intros dbg f1 f2.
  exact (proj2 (proj2 (public_frames_shape machine0 call0 220 dbg [f1; f2]))
           eq_refl [f1] f2 eq_refl).
Defined.

(** A native of a script whose table does not resolve it is on top of a
    record of another script: in this build, which has assertions, the
    assertion fails after the header. *)
Lemma PrintAmxBacktrace_stops_on_world0_nested :
  PrintAmxBacktrace world0_nested =
    Stopped AssertFailed (world_of (PrintAmxBacktrace world0_nested)) /\
  exists top rest,
    npCalls_ world0_nested = top :: rest /\
    (AssertFailed = NullDeref /\
       instances_ world0_nested !! NPCall.amx top = None \/
     AssertFailed = AssertFailed /\ NDEBUG = false /\
       NPCall.IsNative top = true /\
       output (world_of (PrintAmxBacktrace world0_nested)) =
         output world0_nested ++ [header]).
Proof.
  assert (Hstop : PrintAmxBacktrace world0_nested =
            Stopped AssertFailed (world_of (PrintAmxBacktrace world0_nested)))
    by (vm_compute; reflexivity).
  split; [exact Hstop |].
  exact (PrintAmxBacktrace_stops_only world0_nested AssertFailed _ Hstop).
Defined.

(** The record of script 2 ends the loop for script 1, whatever is
    beneath it. *)
Lemma trace_calls_ends_on_foreign_native :
  (2 <> 1) /\
  trace_calls 1 ([call0] ++ NPCall.Native 2 regs0 7 :: [call0]) 220 16 0
    world0 =
  trace_calls 1 ([call0] ++ NPCall.Native 2 regs0 7 :: []) 220 16 0 world0.
Proof.
  assert (Hforeign : NPCall.amx (NPCall.Native 2 regs0 7) <> 1)
    by (simpl; lia).
  split; [lia |].
  exact (trace_calls_ends_at_foreign_record 1 [call0]
           (NPCall.Native 2 regs0 7) [call0] [] 220 16 0 world0 Hforeign).
Defined.

(** Natives 0 and 2 of the table are not bound: "Foo" and "Baz" are
    listed, "Bar" is not. *)
Lemma describe_error_on_natives_table :
  @AMX_ERR_NOTFOUND natives_env <> @AMX_ERR_BOUNDS natives_env /\
  exists w',
    @describe_error natives_env script0 (@AMX_ERR_NOTFOUND natives_env)
      world0_natives = Returned tt w' /\
    output w' =
      [Vlogprintf "[debug]  %s" [ArgStr "Foo"];
       Vlogprintf "[debug]  %s" [ArgStr "Baz"]].
Proof.
  assert (Hdistinct :
            @AMX_ERR_NOTFOUND natives_env <> @AMX_ERR_BOUNDS natives_env)
    by (simpl; lia).
  split; [exact Hdistinct |].
  destruct (@describe_error_lists_unresolved_natives natives_env script0
              world0_natives Hdistinct) as (w' & Hrun & _ & Hout).
  exists w'. split; [exact Hrun |]. rewrite Hout. vm_compute. reflexivity.
Defined.

(** A successful call clears a latch that was set. *)
Lemma DoAmxExec_success_on_latched_world0 :
  let w := set_errorCaught true world0 in
  DoAmxExec script0 (run (HReturn 0)) 3 w =
    Returned AMX_ERR_NONE (world_of (DoAmxExec script0 (run (HReturn 0)) 3 w))
  /\ errorCaught_ (world_of (DoAmxExec script0 (run (HReturn 0)) 3 w)) = false.
Proof.
  cbv zeta.
  assert (Hrun : DoAmxExec script0 (run (HReturn 0)) 3
                   (set_errorCaught true world0) =
            Returned AMX_ERR_NONE
              (world_of (DoAmxExec script0 (run (HReturn 0)) 3
                           (set_errorCaught true world0))))
    by (vm_compute; reflexivity).
  split; [exact Hrun |].
  exact (DoAmxExec_success_clears_latch script0 (run (HReturn 0)) 3 _ _ Hrun).
Defined.

(** Error 4 at entrypoint 3 with the latch cleared. *)
Lemma DoAmxExec_reports_on_world0 :
  (errorCaught_ world0 = false /\ 4 <> AMX_ERR_NONE /\
   ~ (4 = AMX_ERR_INDEX /\ 3 = AMX_EXEC_GDK)) /\
  exists evs,
    output (world_of (DoAmxExec script0 (run (HReturn 4)) 3 world0)) =
    output world0 ++
      Vlogprintf ("[debug] Run time error %d: " +:+ dquote +:+ "%s" +:+ dquote)
        [ArgInt 4; ArgStr (aux_StrError 4)] :: evs.
Proof.
  assert (Hlatch : errorCaught_ world0 = false) by reflexivity.
  assert (Hfail : 4 <> AMX_ERR_NONE) by (simpl; lia).
  assert (Hreal : ~ (4 = AMX_ERR_INDEX /\ 3 = AMX_EXEC_GDK))
    by (intros [_ Hgdk]; discriminate Hgdk).
  split; [done |].
  exact (DoAmxExec_reports_with_latch_cleared script0 3 4 world0
           Hlatch Hfail Hreal).
Defined.

(** The machine reports error 4 while die_on_error is set. *)
Lemma hooks_exit_on_world0_fatal :
  let h := HError script0 3 4 (HReturn 4) in
  run h world0_fatal =
    Stopped (Exit EXIT_FAILURE) (world_of (run h world0_fatal)) /\
  EXIT_FAILURE = EXIT_FAILURE /\ die_on_error world0_fatal = true /\
  last (output (world_of (run h world0_fatal))) =
    Some (Vlogprintf "[debug] Aborting..." []).
Proof.
  cbv zeta.
  assert (Hstop : run (HError script0 3 4 (HReturn 4)) world0_fatal =
            Stopped (Exit EXIT_FAILURE)
              (world_of (run (HError script0 3 4 (HReturn 4)) world0_fatal)))
    by (vm_compute; reflexivity).
  split; [exact Hstop |].
  exact (hooks_stop_only_as_configured _ _ _ _ Hstop).
Defined.

(** A crash with no call in flight. *)
Lemma system_fault_on_world0 :
  npCalls_ world0 = [] /\
  exists w',
    SystemException None world0 = Returned tt w' /\
    output w' = output world0 ++
      Vlogprintf "[debug] Server crashed due to an unknown error" [] ::
      system_backtrace_lines None /\
    instances_ w' = instances_ world0.
Proof.
  split; [reflexivity |].
  exact (proj1 (system_fault_without_call None world0 eq_refl)).
Defined.

End ConcreteFurther.

(** ** The stitcher on the build with a data stack *)
Section ConcreteStack.
Local Existing Instance stack_env.
Local Existing Instance pawn_loader.

(** The walk started below [hlw] finds no frame: entrypoint 3, whose
    address is 32, is reported as frame 0 with the frame pointer 220 that
    was pushed and popped, and entrypoint 5 below it as frame 1. *)
Lemma PrintAmxBacktrace_on_world0_collided :
  public_frames (pop_cell 1 (pop_cell 1 (push_cell 1 220
      (push_cell 1 16 machine0_collided))).2).2 call0 220
    (debugInfo_ script0) [] =
    [ {| frame_amx := 1; GetFrameAddr := 220; GetRetAddr := 0;
         GetFunAddr := 32; frame_debugInfo := debugInfo_ script0 |} ] /\
  PrintAmxBacktrace world0_collided =
    Returned tt (world_of (PrintAmxBacktrace world0_collided)) /\
  output (world_of (PrintAmxBacktrace world0_collided)) =
    [header;
     Vlogprintf "[debug] #%d %s%s"
       [ArgInt 0; ArgStr "public OnPlayerConnect ()"; ArgStr " from gm.amx"];
     Vlogprintf "[debug] #%d %s%s"
       [ArgInt 1; ArgStr "??"; ArgStr " from gm.amx"]].
Proof.
  pose proof (empty_walk_reports_entrypoint call0
                [NPCall.Native 1 regs0 2; NPCall.Public 1 regs0 5]
                220 16 0 world0_collided script0) as Hentry.
  cbv zeta in Hentry.
  destruct Hentry as (Hframes & Hstep & _ & Hprint);
    [lia | vm_compute; reflexivity
    | vm_compute; reflexivity | lia | vm_compute; reflexivity |].
  destruct Hprint as (evs & Hout & Hnum);
    [vm_compute; reflexivity | vm_compute; reflexivity
    | vm_compute; reflexivity | reflexivity |].
  split; [vm_compute in Hframes |- *; exact Hframes |].
  split; [vm_compute; reflexivity |].
  rewrite Hout. vm_compute in Hout. vm_compute.
  injection Hout as <-. reflexivity.
Defined.

(** A crash while entrypoint 3 runs on that machine: the line that names
    the script, the AMX backtrace with both entrypoints, and the system
    backtrace. *)
Lemma system_fault_on_world0_collided :
  npCalls_ world0_collided =
    [call0; NPCall.Native 1 regs0 2; NPCall.Public 1 regs0 5] /\
  SystemException None world0_collided =
    Returned tt (world_of (SystemException None world0_collided)) /\
  output (world_of (SystemException None world0_collided)) =
    [Vlogprintf "[debug] Server crashed while executing %s"
       [ArgStr "gm.amx"];
     header;
     Vlogprintf "[debug] #%d %s%s"
       [ArgInt 0; ArgStr "public OnPlayerConnect ()"; ArgStr " from gm.amx"];
     Vlogprintf "[debug] #%d %s%s"
       [ArgInt 1; ArgStr "??"; ArgStr " from gm.amx"];
     Vlogprintf "[debug] System backtrace:" []].
Proof.
  assert (Hstack : npCalls_ world0_collided =
            [call0; NPCall.Native 1 regs0 2; NPCall.Public 1 regs0 5])
    by reflexivity.
  split; [exact Hstack |].
  assert (Hrun : SystemException None world0_collided =
            Returned tt (world_of (SystemException None world0_collided)))
    by (vm_compute; reflexivity).
  split; [exact Hrun |].
  destruct (proj1 (system_fault_with_call None world0_collided call0 _
                     Hstack))
    as (this & w1 & evs & HGet & Hprinter & _ & Hfault).
  rewrite Hrun in Hfault. destruct Hfault as [_ Hout].
  assert (HGet0 : GetInstance (NPCall.amx call0) world0_collided =
            Returned script0 world0_collided) by (vm_compute; reflexivity).
  rewrite HGet0 in HGet. injection HGet as <- <-.
  vm_compute in Hprinter. injection Hprinter as <-.
  rewrite Hout. vm_compute. reflexivity.
Defined.

End ConcreteStack.
